(** * SimpleLOBStream: the order-book replication engine of [streamer.py]
      and the spread callback of [main.py], embedded in Rocq.

    Layout of the development:
    - [Py]: the fragment of Python the two files rely on (exceptions,
      parsed JSON documents, subscripting, iteration, [Decimal], binary64
      floats and [round]);
    - [Streamer]: [on_order_book] and the [OrderBookStream] class, with the
      coroutine [run] cut at its suspension points;
    - [Main]: the callback [call_order_book];
    - the properties of the replication engine. *)

From Stdlib Require Import ZArith QArith Qcanon Ascii String.
From Stdlib Require Import Floats.SpecFloat.
From stdpp Require Import gmap strings list sorting.

Open Scope string_scope.

(** ** The Python fragment *)
Module Py.

(** Exceptions that can leave the modelled code.  [Exception_] is the bare
    [Exception(msg)] raised by [on_order_book]; [JSONDecodeError] keeps the
    document it failed on (its [doc] attribute). *)
Inductive exn : Type :=
  | KeyError
  | TypeError
  | IndexError
  | ValueError
  | InvalidOperation
  | JSONDecodeError (doc : string)
  | Exception_ (msg : string)
  | CancelledError
  | ConnectionClosed.

Inductive result (A : Type) : Type :=
  | Return (a : A)
  | Raise (e : exn).
Arguments Return {A} a.
Arguments Raise {A} e.

Definition result_bind {A B} (r : result A) (k : A → result B) : result B :=
  match r with
  | Return a => k a
  | Raise e => Raise e
  end.

Notation "'let!' x ':=' r 'in' k" := (result_bind r (λ x, k))
  (at level 10, x binder, r at level 100, k at level 200,
   format "'let!'  x  ':='  r  'in'  '/' k").

(** What [json.loads] produces.  Numbers are kept to the integers: the
    depth endpoints and streams carry prices and quantities as strings and
    only ids and timestamps as (integer) numbers.  An object is the list of
    its members in document order, each key once. *)
#[warnings="-register-all"] Inductive json : Type :=
  | JNull
  | JBool (b : bool)
  | JInt (z : Z)
  | JStr (s : string)
  | JArr (items : list json)
  | JObj (members : list (string * json)).

(** The text of an HTTP body or websocket message together with what
    [json.loads] makes of it ([None]: the text is not JSON). *)
Record text : Type := Text { raw : string; parsed : option json }.

Definition json_loads (t : text) : result json :=
  match parsed t with
  | Some d => Return d
  | None => Raise (JSONDecodeError (raw t))
  end.

Fixpoint assoc (k : string) (kvs : list (string * json)) : option json :=
  match kvs with
  | [] => None
  | (k', v) :: kvs' => if String.eqb k k' then Some v else assoc k kvs'
  end.

Fixpoint chars (s : string) : list json :=
  match s with
  | EmptyString => []
  | String c s' => JStr (String c EmptyString) :: chars s'
  end.

(** [d[key]] with a string key. *)
Definition getitem (d : json) (key : string) : result json :=
  match d with
  | JObj kvs => match assoc key kvs with
                | Some v => Return v
                | None => Raise KeyError
                end
  | _ => Raise TypeError
  end.

(** [d[i]] with a non-negative integer literal. *)
Definition getindex (d : json) (i : nat) : result json :=
  match d with
  | JArr xs => match xs !! i with
               | Some v => Return v
               | None => Raise IndexError
               end
  | JStr s => match chars s !! i with
              | Some v => Return v
              | None => Raise IndexError
              end
  | JObj _ => Raise KeyError
  | _ => Raise TypeError
  end.

(** The elements a [for] loop visits. *)
Definition iter (d : json) : result (list json) :=
  match d with
  | JArr xs => Return xs
  | JStr s => Return (chars s)
  | JObj kvs => Return (JStr ∘ fst <$> kvs)
  | _ => Raise TypeError
  end.

(** ['_' in symbol] on a string. *)
Fixpoint has_underscore (s : string) : bool :=
  match s with
  | EmptyString => false
  | String c s' => if Ascii.eqb c "_"%char then true else has_underscore s'
  end.

(** [s.lower()], on ASCII. *)
Fixpoint lower (s : string) : string :=
  match s with
  | EmptyString => EmptyString
  | String c s' =>
      let n := nat_of_ascii c in
      String (if (65 <=? n)%nat && (n <=? 90)%nat
              then ascii_of_nat (n + 32) else c) (lower s')
  end.

(** *** Decimal *)

(** A finite [decimal.Decimal], identified with its numeric value: equality
    and hashing of [Decimal] are by value, so [Decimal('100.0')] and
    [Decimal('100')] are the same dictionary key.  The special values
    (infinities, NaN) are outside the model: where Python builds one, the
    model has the conversion fail. *)
Abbreviation Decimal := Qc.

Definition digit_of (c : ascii) : option Z :=
  let n := nat_of_ascii c in
  if (48 <=? n)%nat && (n <=? 57)%nat then Some (Z.of_nat (n - 48)) else None.

(** Longest prefix of digits: its value when read after [acc], how many
    digits there were, and the rest of the string. *)
Fixpoint digits (s : string) (acc : Z) (n : nat) : Z * nat * string :=
  match s with
  | EmptyString => (acc, n, s)
  | String c s' =>
      match digit_of c with
      | Some d => digits s' (10 * acc + d) (S n)
      | None => (acc, n, s)
      end
  end.

Definition sign (s : string) : bool * string :=
  match s with
  | String "-" s' => (true, s')
  | String "+" s' => (false, s')
  | _ => (false, s)
  end.

Definition scale10 (c e : Z) : Decimal :=
  if (0 <=? e)%Z then Q2Qc (inject_Z (c * 10 ^ e))
  else Q2Qc (c # Z.to_pos (10 ^ (- e))).

(** [[sign] digits ['.' [digits]] [('e'|'E') [sign] digits]] or
    [[sign] '.' digits [...]]: the numeric strings [Decimal] accepts, less
    the special values, surrounding blanks and underscores. *)
Definition Decimal_of_string (s : string) : result Decimal :=
  let '(neg, s1) := sign s in
  let '(ip, ni, s2) := digits s1 0 0 in
  let '(c, nf, s3) :=
    match s2 with
    | String "." s2' => digits s2' ip 0
    | _ => (ip, 0%nat, s2)
    end in
  if (ni + nf =? 0)%nat then Raise InvalidOperation else
  let c := if neg then (- c)%Z else c in
  match s3 with
  | EmptyString => Return (scale10 c (- Z.of_nat nf))
  | String ("e" | "E") s4 =>
      let '(eneg, s5) := sign s4 in
      let '(e, ne, s6) := digits s5 0 0 in
      match ne, s6 with
      | S _, EmptyString =>
          Return (scale10 c ((if eneg then - e else e) - Z.of_nat nf))
      | _, _ => Raise InvalidOperation
      end
  | _ => Raise InvalidOperation
  end.

(** A sign or a digit inside a sequence given to [Decimal]: an integer,
    which a boolean is too. *)
Definition int_of (x : json) : option Z :=
  match x with
  | JInt z => Some z
  | JBool b => Some (if b then 1 else 0)%Z
  | _ => None
  end.

Fixpoint coefficient (ds : list json) (acc : Z) : option Z :=
  match ds with
  | [] => Some acc
  | d :: ds' =>
      match int_of d with
      | Some z => if (0 <=? z)%Z && (z <=? 9)%Z
                  then coefficient ds' (10 * acc + z) else None
      | None => None
      end
  end.

(** [Decimal([sign, [digit, ...], exponent])]. *)
Definition Decimal_of_sequence (items : list json) : result Decimal :=
  match items with
  | [s; JArr ds; e] =>
      match int_of s, coefficient ds 0, int_of e with
      | Some 0%Z, Some c, Some e => Return (scale10 c e)
      | Some 1%Z, Some c, Some e => Return (scale10 (- c) e)
      | _, _, _ => Raise ValueError
      end
  | _ => Raise ValueError
  end.

(** [Decimal(x)] on a parsed JSON value. *)
Definition Decimal_of (x : json) : result Decimal :=
  match x with
  | JStr s => Decimal_of_string s
  | JInt z => Return (Q2Qc (inject_Z z))
  | JBool b => Return (Q2Qc (inject_Z (if b then 1 else 0)))
  | JArr items => Decimal_of_sequence items
  | JNull | JObj _ => Raise TypeError
  end.

(** *** Floats *)

(** Python's [float] is IEEE 754 binary64. *)
Abbreviation float := spec_float.
Definition prec : Z := 53.
Definition emax : Z := 1024.

(** The float nearest to [n/d], ties to even: what the correctly rounded
    string-to-float conversion returns on the decimal expansion of [n/d]. *)
Definition float_of_ratio (neg : bool) (n d : positive) : float :=
  let '(m, e, l) := SFdiv_core_binary prec emax (Zpos n) 0 (Zpos d) 0 in
  binary_round_aux prec emax neg m e l.

(** [float(d)] for a [Decimal] [d]. *)
Definition float_of_Decimal (d : Decimal) : float :=
  match Qnum d with
  | Z0 => S754_zero false
  | Zpos n => float_of_ratio false n (Qden d)
  | Zneg n => float_of_ratio true n (Qden d)
  end.

Definition float_sub (x y : float) : float := SFsub prec emax x y.

(** The integer nearest to [n/d] for [0 <= n], ties to even. *)
Definition round_half_even (n : Z) (d : positive) : Z :=
  let q := (n / Zpos d)%Z in
  match (2 * (n mod Zpos d) ?= Zpos d)%Z with
  | Lt => q
  | Gt => (q + 1)%Z
  | Eq => if Z.even q then q else (q + 1)%Z
  end.

(** [round(x, ndigits)] for [0 <= ndigits]: the exact value of [x] is
    rounded to [ndigits] decimal places, ties to even, and the resulting
    decimal is converted back to the nearest float; infinities and NaN
    round to themselves. *)
Definition round (x : float) (ndigits : nat) : float :=
  match x with
  | S754_finite s m e =>
      let p := (10 ^ Z.of_nat ndigits)%Z in
      let n := if (0 <=? e)%Z
               then (Zpos m * 2 ^ e * p)%Z
               else round_half_even (Zpos m * p) (Z.to_pos (2 ^ (- e))) in
      match n with
      | Zpos n => float_of_ratio s n (Z.to_pos p)
      | _ => S754_zero s
      end
  | _ => x
  end.

End Py.

(** ** streamer.py *)
Module Streamer.
Import Py.

Definition URL_ORDER_BOOK : string := "https://api.binance.com/api/v1/depth".
Definition URL_ORDER_BOOK_PERP : string :=
  "https://dapi.binance.com/dapi/v1/depth".

(** [OrderBook = namedtuple("OrderBook", "bids asks")]. *)
Record OrderBook : Type :=
  mkOrderBook { bids : list (Decimal * Decimal); asks : list (Decimal * Decimal) }.

(** The per-symbol dictionary [{'bids': {}, 'asks': {}}]. *)
Record lob : Type :=
  Lob { lob_bids : gmap Decimal Decimal; lob_asks : gmap Decimal Decimal }.

Inductive side : Type := Bids | Asks.

Definition levels (sd : side) (b : lob) : gmap Decimal Decimal :=
  match sd with Bids => lob_bids b | Asks => lob_asks b end.

Definition set_levels (sd : side) (m : gmap Decimal Decimal) (b : lob) : lob :=
  match sd with
  | Bids => Lob m (lob_asks b)
  | Asks => Lob (lob_bids b) m
  end.

(** *** The outside world *)

(** A GET on a depth endpoint; the query string is kept as its two
    attributes. *)
Record request : Type :=
  Request { req_url : string; req_symbol : string; req_limit : Z }.

(** The final HTTP response to a request. *)
Record response : Type := Response { status : Z; body : text }.

(** The exchange's REST interface: the response to a request, given how
    many requests were issued before it. *)
Definition rest_api : Type := nat → request → response.

(** An [asyncio.Task] wrapping [socket.recv()]. *)
Inductive task_state : Type := Pending | Finished | Cancelled.

(** What the callback of [main.py] hands to redis. *)
Record dash_params : Type :=
  DashParams { exchange_ts : Z; spread : float; orderbook : lob }.

(** The [OrderBookStream] object (the four fields with a leading
    underscore) and the effects of its methods on the outside: the task
    objects created so far (a task is named by its index), the REST
    requests issued, the websocket urls connected to, the coroutines handed
    to the event loop as (url, id), the lines printed, and the [hset] calls
    on redis. *)
Record world : Type := World {
  _order_books : gmap string lob;
  _order_books_perp : gmap string lob;
  _sockets : gset string;
  _tasks : gmap string nat;
  tasks : list task_state;
  requests : list request;
  connections : list string;
  scheduled : list (string * string);
  stdout : list string;
  redis : list (string * string * dash_params)
}.

#[global] Instance exn_eq_dec : EqDecision exn.
Proof. solve_decision. Defined.
#[global] Instance result_eq_dec {A} `{EqDecision A} : EqDecision (result A).
Proof. solve_decision. Defined.
#[global] Instance OrderBook_eq_dec : EqDecision OrderBook.
Proof. solve_decision. Defined.
#[global] Instance lob_eq_dec : EqDecision lob.
Proof. solve_decision. Defined.
#[global] Instance request_eq_dec : EqDecision request.
Proof. solve_decision. Defined.
#[global] Instance task_state_eq_dec : EqDecision task_state.
Proof. solve_decision. Defined.
#[global] Instance float_eq_dec : EqDecision float.
Proof. solve_decision. Defined.
#[global] Instance dash_params_eq_dec : EqDecision dash_params.
Proof. solve_decision. Defined.
#[global] Instance world_eq_dec : EqDecision world.
Proof. solve_decision. Defined.

Definition set_books (perp : bool) (f : gmap string lob → gmap string lob)
    (w : world) : world :=
  if perp
  then World (_order_books w) (f (_order_books_perp w)) (_sockets w) (_tasks w)
         (tasks w) (requests w) (connections w) (scheduled w) (stdout w) (redis w)
  else World (f (_order_books w)) (_order_books_perp w) (_sockets w) (_tasks w)
         (tasks w) (requests w) (connections w) (scheduled w) (stdout w) (redis w).

Definition set_sockets (f : gset string → gset string) (w : world) : world :=
  World (_order_books w) (_order_books_perp w) (f (_sockets w)) (_tasks w)
    (tasks w) (requests w) (connections w) (scheduled w) (stdout w) (redis w).

Definition set_tasks_map (f : gmap string nat → gmap string nat) (w : world)
  : world :=
  World (_order_books w) (_order_books_perp w) (_sockets w) (f (_tasks w))
    (tasks w) (requests w) (connections w) (scheduled w) (stdout w) (redis w).

Definition set_tasks (f : list task_state → list task_state) (w : world)
  : world :=
  World (_order_books w) (_order_books_perp w) (_sockets w) (_tasks w)
    (f (tasks w)) (requests w) (connections w) (scheduled w) (stdout w) (redis w).

Definition log_request (r : request) (w : world) : world :=
  World (_order_books w) (_order_books_perp w) (_sockets w) (_tasks w)
    (tasks w) (requests w ++ [r]) (connections w) (scheduled w) (stdout w)
    (redis w).

Definition log_connection (url : string) (w : world) : world :=
  World (_order_books w) (_order_books_perp w) (_sockets w) (_tasks w)
    (tasks w) (requests w) (connections w ++ [url]) (scheduled w) (stdout w)
    (redis w).

Definition log_scheduled (url id : string) (w : world) : world :=
  World (_order_books w) (_order_books_perp w) (_sockets w) (_tasks w)
    (tasks w) (requests w) (connections w) (scheduled w ++ [(url, id)])
    (stdout w) (redis w).

Definition log_stdout (line : string) (w : world) : world :=
  World (_order_books w) (_order_books_perp w) (_sockets w) (_tasks w)
    (tasks w) (requests w) (connections w) (scheduled w) (stdout w ++ [line])
    (redis w).

Definition log_redis (name key : string) (v : dash_params) (w : world)
  : world :=
  World (_order_books w) (_order_books_perp w) (_sockets w) (_tasks w)
    (tasks w) (requests w) (connections w) (scheduled w) (stdout w)
    (redis w ++ [(name, key, v)]).

(** *** Statements: state and exceptions *)

(** A statement runs in a world and leaves a world, also when it raises:
    what it mutated before the exception stays mutated. *)
Definition M (A : Type) : Type := world → world * result A.

Definition ret {A} (a : A) : M A := λ w, (w, Return a).
Definition raise {A} (e : exn) : M A := λ w, (w, Raise e).
Definition lift {A} (r : result A) : M A := λ w, (w, r).
Definition modify (f : world → world) : M unit := λ w, (f w, Return tt).
Definition bind {A B} (c : M A) (k : A → M B) : M B :=
  λ w, match c w with
       | (w', Return a) => k a w'
       | (w', Raise e) => (w', Raise e)
       end.

Notation "'let*' x ':=' c 'in' k" := (bind c (λ x, k))
  (at level 10, x binder, c at level 100, k at level 200,
   format "'let*'  x  ':='  c  'in'  '/' k").

(** [for x in xs: body(x)]. *)
Fixpoint for_ {A} (xs : list A) (body : A → M unit) : M unit :=
  match xs with
  | [] => ret tt
  | x :: xs' => let* _ := body x in for_ xs' body
  end.

(** *** Dictionaries of price levels *)

(** [del levels[p]]. *)
Definition delitem (levels : gmap Decimal Decimal) (p : Decimal)
  : result (gmap Decimal Decimal) :=
  match levels !! p with
  | Some _ => Return (delete p levels)
  | None => Raise KeyError
  end.

(** The body of the two loops over [updates['a']] and [updates['b']], once
    price and quantity are decimals:
    [if q > 0: levels[p] = q  elif p in levels: del levels[p]]. *)
Definition update_level (levels : gmap Decimal Decimal) (p q : Decimal)
  : result (gmap Decimal Decimal) :=
  if decide (0 < q)%Qc then Return (<[p := q]> levels)
  else if decide (is_Some (levels !! p)) then delitem levels p
  else Return levels.

Definition books (perp : bool) (w : world) : gmap string lob :=
  if perp then _order_books_perp w else _order_books w.

(** [self._order_books[symbol]], or [self._order_books_perp[symbol]]. *)
Definition getbook (perp : bool) (symbol : string) : M lob :=
  λ w, match books perp w !! symbol with
       | Some b => (w, Return b)
       | None => (w, Raise KeyError)
       end.

(** A statement on [book[sd]], where [book] is the dictionary that
    [getbook perp symbol] returned: the dictionary is shared with the
    stream object, so the change is made in place. *)
Definition on_levels (perp : bool) (symbol : string) (sd : side)
    (f : gmap Decimal Decimal → result (gmap Decimal Decimal)) : M unit :=
  let* book := getbook perp symbol in
  let* m := lift (f (levels sd book)) in
  modify (set_books perp (<[symbol := set_levels sd m book]>)).

(** [(Decimal(x[0]), Decimal(x[1]))]. *)
Definition level_of (x : json) : result (Decimal * Decimal) :=
  let! p0 := getindex x 0 in
  let! p := Decimal_of p0 in
  let! q0 := getindex x 1 in
  let! q := Decimal_of q0 in
  Return (p, q).

(** One turn of a loop over the updates of one side. *)
Definition merge_level (perp : bool) (symbol : string) (sd : side) (x : json)
  : M unit :=
  let* pq := lift (level_of x) in
  on_levels perp symbol sd (λ m, update_level m (fst pq) (snd pq)).

(** *** on_order_book *)

(** [str(b)] of a [bytes] object; the escapes of non-printable bytes are
    not modelled. *)
Definition bytes_repr (b : string) : string := "b'" ++ b ++ "'".

(** What [urlopen] raises on a response outside 200..299; it is caught
    inside [on_order_book] and never leaves it. *)
Inductive urlopen_result : Type :=
  | HTTPError (e : response)
  | Opened (resp : response).

Definition urlopen (api : rest_api) (req : request)
  : world → world * urlopen_result :=
  λ w, let r := api (length (requests w)) req in
       (log_request req w,
        if (200 <=? status r)%Z && (status r <? 300)%Z
        then Opened r else HTTPError r).

(** The two loops that fill [bids] and [asks] from the parsed body. *)
Fixpoint levels_of (xs : list json) : result (list (Decimal * Decimal)) :=
  match xs with
  | [] => Return []
  | x :: xs' =>
      let! l := level_of x in
      let! ls := levels_of xs' in
      Return (l :: ls)
  end.

Definition order_book_of (res : json) : result OrderBook :=
  let! bs := getitem res "bids" in
  let! bs := iter bs in
  let! bids := levels_of bs in
  let! as_ := getitem res "asks" in
  let! as_ := iter as_ in
  let! asks := levels_of as_ in
  Return (mkOrderBook bids asks).

Definition on_order_book (api : rest_api) (symbol : string) (limit : Z)
  : M OrderBook :=
  let url := if has_underscore symbol
             then URL_ORDER_BOOK_PERP else URL_ORDER_BOOK in
  λ w, match urlopen api (Request url symbol limit) w with
       | (w', HTTPError e) => (w', Raise (Exception_ (bytes_repr (raw (body e)))))
       | (w', Opened resp) =>
           (w', let! res := json_loads (body resp) in order_book_of res)
       end.

(** *** class OrderBookStream *)

(** [__init__], in a process that has done nothing yet. *)
Definition __init__ : world := World ∅ ∅ ∅ ∅ [] [] [] [] [] [].

Definition get_order_book (symbol : string) : M lob := getbook false symbol.

Definition get_order_book_perp (symbol : string) : M lob := getbook true symbol.

Definition len (m : gmap Decimal Decimal) : nat := size m.

(** [book[sd][p] = q]. *)
Definition setitem (perp : bool) (symbol : string) (sd : side)
    (pq : Decimal * Decimal) : M unit :=
  on_levels perp symbol sd (λ m, Return (<[pq.1 := pq.2]> m)).

(** The body of [if len(book['asks']) == 0 and len(book['bids']) == 0]. *)
Definition initialize (api : rest_api) (perp : bool) (symbol : string)
  : M unit :=
  let* order_book := on_order_book api symbol 1000 in
  let* _ := for_ (asks order_book) (setitem perp symbol Asks) in
  for_ (bids order_book) (setitem perp symbol Bids).

(** From [asks, bids = updates['a'], updates['b']] to the end. *)
Definition merge_updates (perp : bool) (symbol : string) (updates : json)
  : M unit :=
  let* asks := lift (getitem updates "a") in
  let* bids := lift (getitem updates "b") in
  let* asks := lift (iter asks) in
  let* _ := for_ asks (merge_level perp symbol Asks) in
  let* bids := lift (iter bids) in
  for_ bids (merge_level perp symbol Bids).

Definition update_order_book (api : rest_api) (symbol : string)
    (updates : json) : M unit :=
  let perp := has_underscore symbol in
  let* book := getbook perp symbol in
  let* _ :=
    if (len (lob_asks book) =? 0)%nat && (len (lob_bids book) =? 0)%nat
    then initialize api perp symbol
    else ret tt in
  merge_updates perp symbol updates.

(** The coroutine [run] is given by what it does between two suspension
    points.  It is suspended while the connection is being set up, while
    it awaits [recv_task], and while it sleeps; it ends by returning or by
    an exception leaving it. *)
Inductive coroutine : Type :=
  | Connecting
  | Receiving (recv_task : nat)
  | Sleeping
  | Ended (r : result unit).

(** [asyncio.Task(self.run(url=url, id=id, callback=callback))]: the
    coroutine is handed to the event loop and has not run yet. *)
Definition Task_run (url id : string) : M unit := modify (log_scheduled url id).

Definition open_stream_order_book (symbol : string) : M unit :=
  let* _ := modify (set_books false (<[symbol := Lob ∅ ∅]>)) in
  let url := "wss://stream.binance.com:9443/ws/" ++ lower symbol ++ "@depth" in
  Task_run url ("depth_" ++ lower symbol).

Definition open_stream_order_book_perp (symbol : string) : M unit :=
  let* _ := modify (set_books true (<[symbol := Lob ∅ ∅]>)) in
  let url := "wss://dstream.binance.com/stream?streams=" ++ lower symbol
             ++ "@depth" in
  Task_run url ("depth_perp_" ++ lower symbol).

(** [id.find(prefix) == 0]. *)
Definition find_is_0 (id prefix : string) : bool := String.prefix prefix id.

(** [run] from its first line to [websockets.connect(url)]. *)
Definition run_start (url id : string) : world → world * coroutine :=
  λ w, if decide (id ∈ _sockets w)
       then (log_stdout ("Warning: socket " ++ id ++ " already opened!") w,
             Ended (Return tt))
       else (log_connection url (log_stdout ("Starting stream: " ++ url) w),
             Connecting).

(** The head of [while id in self._sockets] down to [await recv_task];
    leaving the loop leaves the [async with] and the coroutine. *)
Definition run_loop (id : string) : world → world * coroutine :=
  λ w, if decide (id ∈ _sockets w)
       then let recv_task := length (tasks w) in
            (set_tasks_map (<[id := recv_task]>)
               (set_tasks (λ ts, (ts ++ [Pending])%list) w),
             Receiving recv_task)
       else (w, Ended (Return tt)).

(** The connection is there: [self._sockets.add(id)], then the loop. *)
Definition run_connected (id : string) : world → world * coroutine :=
  λ w, run_loop id (set_sockets (λ s, {[id]} ∪ s) w).

(** [del self._tasks[id]]. *)
Definition del_task (id : string) : M unit :=
  λ w, match _tasks w !! id with
       | Some _ => (set_tasks_map (delete id) w, Return tt)
       | None => (w, Raise KeyError)
       end.

(** From [data = await recv_task], when the task has finished with the
    message [msg], to [await(asyncio.sleep(.1))]. *)
Definition run_received_body (api : rest_api) (callback : json → M unit)
    (id : string) (msg : text) : M unit :=
  let* data := lift (json_loads msg) in
  let* _ := del_task id in
  let* data :=
    if find_is_0 id "depth"
    then
      let* data := if find_is_0 id "depth_perp"
                   then lift (getitem data "data") else ret data in
      let* symbol := lift (getitem data "s") in
      (* a [symbol] that is not a string fails on ['_' in symbol] or on the
         lookup of the book, with a TypeError in both cases *)
      let* _ := match symbol with
                | JStr symbol => update_order_book api symbol data
                | _ => raise TypeError
                end in
      ret data
    else ret data in
  callback data.

(** [run] resumed from [await recv_task].  A task that was cancelled
    raises [CancelledError] in the coroutine awaiting it; otherwise the
    task has ended with [outcome]: a message, or the transport's exception
    when the connection was lost. *)
Definition run_received (api : rest_api) (callback : json → M unit)
    (id : string) (recv_task : nat) (outcome : result text)
  : world → world * coroutine :=
  λ w, match tasks w !! recv_task with
       | Some Cancelled => (w, Ended (Raise CancelledError))
       | _ =>
           let w := set_tasks (<[recv_task := Finished]>) w in
           match outcome with
           | Raise e => (w, Ended (Raise e))
           | Return msg =>
               match run_received_body api callback id msg w with
               | (w', Return _) => (w', Sleeping)
               | (w', Raise e) => (w', Ended (Raise e))
               end
           end
       end.

(** [run] resumed from the sleep: back to the head of the loop. *)
Definition run_woken (id : string) : world → world * coroutine := run_loop id.

(** [task.cancel()]: a task that is done is left as it is. *)
Definition cancel (t : nat) (ts : list task_state) : list task_state :=
  match ts !! t with
  | Some Pending => <[t := Cancelled]> ts
  | _ => ts
  end.

Definition close : M unit :=
  let* _ := modify (log_stdout "closing all streams") in
  let* keys := (λ w, (w, Return (map_to_list (_tasks w)))) in
  let* _ := for_ keys (λ kt, modify (set_tasks (cancel kt.2))) in
  let* _ := modify (set_sockets (λ _, ∅)) in
  modify (log_stdout "closed all streams").

End Streamer.

(** ** main.py *)
Module Main.
Import Py Streamer.

(** [sorted(d.items())] and [sorted(d.items(), reverse=True)]: the keys of
    a dictionary are distinct, so the pairs are ordered by their keys. *)
Definition key_le (x y : Decimal * Decimal) : Prop := (x.1 <= y.1)%Qc.

#[global] Instance key_le_dec : RelDecision key_le.
Proof. intros x y. unfold key_le. apply _. Defined.

Definition sorted (reverse : bool) (d : gmap Decimal Decimal)
  : list (Decimal * Decimal) :=
  if reverse
  then merge_sort (flip key_le) (map_to_list d)
  else merge_sort key_le (map_to_list d).

(** [list(d.keys())[0]] on the dictionary rebuilt from sorted items. *)
Definition first_key (items : list (Decimal * Decimal)) : result Decimal :=
  match items with
  | kv :: _ => Return kv.1
  | [] => Raise IndexError
  end.

(** [round(float(list(lob['asks'].keys())[0]) -
           float(list(lob['bids'].keys())[0]), 4)]
    after both sides were sorted. *)
Definition spread_of (b : lob) : result float :=
  let! ask := first_key (sorted false (lob_asks b)) in
  let! bid := first_key (sorted true (lob_bids b)) in
  Return (round (float_sub (float_of_Decimal ask) (float_of_Decimal bid)) 4).

(** The callback of [run] in [main.py].  The event time is kept as the
    integer of milliseconds it is computed from; rebuilding the two sides
    from their sorted items changes the order of the dictionaries only, and
    the book does not record it. *)
Definition call_order_book (data : json) : M unit :=
  let* e := lift (getitem data "E") in
  let* ts := lift (match e with
                   | JInt z => Return z
                   | JBool b => Return (if b then 1 else 0)%Z
                   | _ => Raise TypeError
                   end) in
  let* s := lift (getitem data "s") in
  let* symbol := lift (match s with
                       | JStr symbol => Return symbol
                       | _ => Raise TypeError
                       end) in
  let* lob := if has_underscore symbol
              then get_order_book_perp symbol else get_order_book symbol in
  let* spread := lift (spread_of lob) in
  modify (log_redis symbol (symbol ++ "_spread") (DashParams ts spread lob)).

(** [run(pairs)] down to [run_forever()]: a stream is opened for each
    pair, with [call_order_book] as its callback. *)
Definition run (pairs : list string) : M unit :=
  for_ pairs (λ pair,
    if has_underscore pair
    then open_stream_order_book_perp pair
    else open_stream_order_book pair).

End Main.

(** ** monitor.py *)
Module Monitor.
Import Py Streamer.

(** [interval = 1], [graph_len = int(0.5 * 60 * 60 // interval)],
    [lob_depth = 10]. *)
Definition graph_len : nat := 1800.
Definition lob_depth : Z := 10.

(** [q.append(x)] on a [deque(maxlen=maxlen)] holding [q]. *)
Definition deque_append {A} (maxlen : nat) (q : list A) (x : A) : list A :=
  if (length q <? maxlen)%nat then (q ++ [x])%list
  else drop 1 (q ++ [x])%list.

(** A row of the table of quotes: the values appended to the four columns
    of [lob_d] in one turn of the loop. *)
Record quote : Type := Quote {
  bids_price : float;
  bids_quantity : float;
  asks_price : float;
  asks_quantity : float
}.

Definition quote_of (x : (Decimal * Decimal) * (Decimal * Decimal)) : quote :=
  Quote (round (float_of_Decimal x.1.1) 4) (round (float_of_Decimal x.1.2) 4)
        (round (float_of_Decimal x.2.1) 4) (round (float_of_Decimal x.2.2) 4).

(** The loop [for i, (bids, asks) in enumerate(zip(...))] from its turn
    [i] on: the four values are appended, then [if i >= depth - 1: break]. *)
Fixpoint quotes_from (depth i : Z)
    (zipped : list ((Decimal * Decimal) * (Decimal * Decimal))) : list quote :=
  match zipped with
  | [] => []
  | x :: rest =>
      if (depth - 1 <=? i)%Z then [quote_of x]
      else quote_of x :: quotes_from depth (i + 1) rest
  end.

(** [lob_d], from the items of [lob['bids']] and [lob['asks']] in the
    order of the two dictionaries. *)
Definition lob_d (bids_items asks_items : list (Decimal * Decimal))
  : list quote :=
  quotes_from lob_depth 0 (zip bids_items asks_items).

End Monitor.

(** ** The process: what can happen to a stream object, one step at a time *)
Module Loop.
Import Py Streamer Main.

(** A step of the process is a call of a method of the stream object or
    the event loop resuming a [run] coroutine.  Coroutines are not tracked:
    any of them may be resumed at any time, which covers every schedule of
    the event loop. *)
Inductive action : Type :=
  | Open (symbol : string)
  | OpenPerp (symbol : string)
  | Update (symbol : string) (updates : json)
  | Start (url id : string)
  | Connected (id : string)
  | Received (id : string) (recv_task : nat) (outcome : result text)
  | Woken (id : string)
  | Close.

Definition exec (api : rest_api) (callback : json → M unit) (a : action)
    (w : world) : world :=
  match a with
  | Open symbol => (open_stream_order_book symbol w).1
  | OpenPerp symbol => (open_stream_order_book_perp symbol w).1
  | Update symbol updates => (update_order_book api symbol updates w).1
  | Start url id => (run_start url id w).1
  | Connected id => (run_connected id w).1
  | Received id t outcome => (run_received api callback id t outcome w).1
  | Woken id => (run_woken id w).1
  | Close => (close w).1
  end.

Definition exec_all (api : rest_api) (callback : json → M unit)
    (trace : list action) (w : world) : world :=
  foldl (λ w a, exec api callback a w) w trace.

(** The same steps with the coroutines tracked: every [run] coroutine
    that was started is recorded under its id with the point it is
    suspended at, a coroutine is resumed only from that point, and a [run]
    is started for an id only when no coroutine of that id is alive. *)
Definition alive (c : option coroutine) : Prop :=
  match c with
  | None | Some (Ended _) => False
  | Some _ => True
  end.

Inductive tracked (api : rest_api) (callback : json → M unit)
  : world → gmap string coroutine → Prop :=
  | tracked_init : tracked api callback __init__ ∅
  | tracked_open w cs symbol :
      tracked api callback w cs →
      tracked api callback (open_stream_order_book symbol w).1 cs
  | tracked_open_perp w cs symbol :
      tracked api callback w cs →
      tracked api callback (open_stream_order_book_perp symbol w).1 cs
  | tracked_update w cs symbol updates :
      tracked api callback w cs →
      tracked api callback (update_order_book api symbol updates w).1 cs
  | tracked_close w cs :
      tracked api callback w cs →
      tracked api callback (close w).1 cs
  | tracked_start w cs url id :
      tracked api callback w cs →
      ¬ alive (cs !! id) →
      tracked api callback (run_start url id w).1
        (<[id := (run_start url id w).2]> cs)
  | tracked_connected w cs id :
      tracked api callback w cs →
      cs !! id = Some Connecting →
      tracked api callback (run_connected id w).1
        (<[id := (run_connected id w).2]> cs)
  | tracked_received w cs id t outcome :
      tracked api callback w cs →
      cs !! id = Some (Receiving t) →
      tracked api callback (run_received api callback id t outcome w).1
        (<[id := (run_received api callback id t outcome w).2]> cs)
  | tracked_woken w cs id :
      tracked api callback w cs →
      cs !! id = Some Sleeping →
      tracked api callback (run_woken id w).1
        (<[id := (run_woken id w).2]> cs).

(** Every pending receive task is the one some coroutine awaits, and is
    recorded under the id of that coroutine. *)
Definition pending_recorded (w : world) (cs : gmap string coroutine) : Prop :=
  ∀ t, tasks w !! t = Some Pending →
       ∃ id, cs !! id = Some (Receiving t) ∧ _tasks w !! id = Some t.

(** The callback is any code that leaves the stream object and the tasks
    alone, as [call_order_book] does. *)
Definition leaves_stream (callback : json → M unit) : Prop :=
  ∀ data w,
    let w' := (callback data w).1 in
    _order_books w' = _order_books w ∧
    _order_books_perp w' = _order_books_perp w ∧
    _sockets w' = _sockets w ∧
    _tasks w' = _tasks w ∧
    tasks w' = tasks w.

(** The steps that neither open a stream nor close them all. *)
Definition quiet (a : action) : Prop :=
  match a with
  | Open _ | OpenPerp _ | Close => False
  | _ => True
  end.

Definition opens (symbol : string) (a : action) : Prop :=
  a = Open symbol ∨ a = OpenPerp symbol.

(** No stream was opened for [symbol]. *)
Definition no_book (symbol : string) (w : world) : Prop :=
  _order_books w !! symbol = None ∧ _order_books_perp w !! symbol = None.

(** The request [on_order_book symbol] issues. *)
Definition request_for (symbol : string) : request :=
  Request (if has_underscore symbol
           then URL_ORDER_BOOK_PERP else URL_ORDER_BOOK) symbol 1000.

(** What [on_order_book] makes of a response. *)
Definition fetched (r : response) : result OrderBook :=
  if (200 <=? status r)%Z && (status r <? 300)%Z
  then let! res := json_loads (body r) in order_book_of res
  else Raise (Exception_ (bytes_repr (raw (body r)))).

(** A snapshot that [on_order_book] returns has no level with a quantity
    that is not positive. *)
Definition positive_snapshots (api : rest_api) : Prop :=
  ∀ n req ob,
    fetched (api n req) = Return ob →
    Forall (λ pq, (0 < pq.2)%Qc) (bids ob) ∧
    Forall (λ pq, (0 < pq.2)%Qc) (asks ob).

(** The best prices of a side: the lowest and the highest key. *)
Definition lowest (k : Decimal) (m : gmap Decimal Decimal) : Prop :=
  is_Some (m !! k) ∧ ∀ k', is_Some (m !! k') → (k <= k')%Qc.

Definition highest (k : Decimal) (m : gmap Decimal Decimal) : Prop :=
  is_Some (m !! k) ∧ ∀ k', is_Some (m !! k') → (k' <= k)%Qc.

(** A side after the levels of a snapshot were stored into it in turn. *)
Definition snapshot_levels (l : list (Decimal * Decimal))
    (m : gmap Decimal Decimal) : gmap Decimal Decimal :=
  foldl (λ m pq, <[pq.1 := pq.2]> m) m l.

(** [c] maintains [P], whether it returns or raises. *)
Definition keeps {B} (P : world → Prop) (c : world → world * B) : Prop :=
  ∀ w, P w → P (c w).1.

Definition positive_levels (m : gmap Decimal Decimal) : Prop :=
  ∀ p q, m !! p = Some q → (0 < q)%Qc.

Definition positive_books (w : world) : Prop :=
  ∀ perp symbol b sd,
    books perp w !! symbol = Some b → positive_levels (levels sd b).

(** A side after the updates [l] were merged into it in turn. *)
Definition merged (l : list (Decimal * Decimal)) (m : gmap Decimal Decimal)
  : gmap Decimal Decimal :=
  foldl (λ m pq, if decide (0 < pq.2)%Qc
                 then <[pq.1 := pq.2]> m else delete pq.1 m) m l.

(** The quantity of the last entry of [l] for the price [p]. *)
Definition last_for (p : Decimal) (l : list (Decimal * Decimal))
  : option Decimal :=
  foldl (λ acc pq, if decide (pq.1 = p) then Some pq.2 else acc) None l.

(** The url and the id of the session that is opened for a pair. *)
Definition session_of (pair : string) : string * string :=
  if has_underscore pair
  then ("wss://dstream.binance.com/stream?streams=" ++ lower pair ++ "@depth",
        "depth_perp_" ++ lower pair)
  else ("wss://stream.binance.com:9443/ws/" ++ lower pair ++ "@depth",
        "depth_" ++ lower pair).

(** The world after the stream of a pair was opened as [main.py] does. *)
Definition opened (pair : string) (w : world) : world :=
  log_scheduled (session_of pair).1 (session_of pair).2
    (set_books (has_underscore pair) (<[pair := Lob ∅ ∅]>) w).

(** Every scheduled coroutine runs to its first suspension point, in the
    order of scheduling, before any connection is established: the first
    turn of the event loop after [run_forever()]. *)
Definition start_all (sessions : list (string * string)) (w : world) : world :=
  foldl (λ w ui, (run_start ui.1 ui.2 w).1) w sessions.

End Loop.

(** ** Properties *)
Import Py Streamer Main Loop.
Open Scope list_scope.

(** *** The Python fragment on examples *)

Example Decimal_plain : Decimal_of (JStr "99.5") = Return (scale10 995 (-1)).
Proof. compute_done. Qed.

Example Decimal_same_key : Decimal_of (JStr "100.0") = Decimal_of (JStr "1E+2").
Proof. compute_done. Qed.

Example Decimal_invalid : Decimal_of (JStr "12a") = Raise InvalidOperation.
Proof. reflexivity. Qed.

Example level_of_short : level_of (JArr [JStr "1.5"]) = Raise IndexError.
Proof. reflexivity. Qed.

(** [float('0.1')] is 0x1.999999999999ap-4. *)
Example float_tenth :
  float_of_Decimal (scale10 1 (-1)) = S754_finite false 7205759403792794 (-56).
Proof. reflexivity. Qed.

(** [0.3 - 0.1] is 0.19999999999999998 and [round(0.3 - 0.1, 4)] is
    [0.2]. *)
Example round_difference :
  round (float_sub (float_of_Decimal (scale10 3 (-1)))
                   (float_of_Decimal (scale10 1 (-1)))) 4
  = float_of_Decimal (scale10 2 (-1)).
Proof. reflexivity. Qed.

(** [round(2.675, 2)] is [2.67]: the float nearest to 2.675 is below it;
    [round(0.125, 2)] is [0.12]: a tie goes to the even digit. *)
Example round_below_half :
  round (float_of_Decimal (scale10 2675 (-3))) 2
  = float_of_Decimal (scale10 267 (-2)).
Proof. reflexivity. Qed.

Example round_tie :
  round (float_of_Decimal (scale10 125 (-3))) 2
  = float_of_Decimal (scale10 12 (-2)).
Proof. reflexivity. Qed.

(** *** Merging one level *)

Lemma update_level_returns (levels : gmap Decimal Decimal) (p q : Decimal) :
  update_level levels p q =
    Return (if decide (0 < q)%Qc then <[p := q]> levels else delete p levels).
Proof.
  unfold update_level, delitem.
  destruct (decide (0 < q)%Qc) as [Hq|Hq]; [done|].
  destruct (decide (is_Some (levels !! p))) as [[q' Hp]|Hp].
  - by rewrite Hp.
  - apply eq_None_not_Some in Hp. by rewrite delete_id.
Qed.

Lemma update_level_cases (levels : gmap Decimal Decimal) (p q : Decimal) :
  ∃ m, update_level levels p q = Return m ∧
       delete p m = delete p levels ∧
       ((0 < q)%Qc → m !! p = Some q) ∧
       ((q <= 0)%Qc → m !! p = None) ∧
       ((q <= 0)%Qc → levels !! p = None → m = levels).
Proof.
  rewrite update_level_returns. eexists; split; [done|].
  destruct (decide (0 < q)%Qc) as [Hq|Hq]; split_and!.
  - apply delete_insert_eq.
  - intros _. apply lookup_insert_eq.
  - intros Hle. by apply Qcle_not_lt in Hle.
  - intros Hle. by apply Qcle_not_lt in Hle.
  - apply delete_delete_eq.
  - done.
  - intros _. apply lookup_delete_eq.
  - intros _. apply delete_id.
Qed.

Lemma books_set_books perp f w : books perp (set_books perp f w) = f (books perp w).
Proof. by destruct perp. Qed.

Lemma set_books_set_books perp f g w :
  set_books perp f (set_books perp g w) = set_books perp (f ∘ g) w.
Proof. by destruct perp. Qed.

Lemma set_books_id perp f w : f (books perp w) = books perp w → set_books perp f w = w.
Proof. destruct perp, w; simpl; by intros ->. Qed.

Lemma levels_set_levels sd m b : levels sd (set_levels sd m b) = m.
Proof. by destruct sd. Qed.

Lemma set_levels_set_levels sd m m' b :
  set_levels sd m (set_levels sd m' b) = set_levels sd m b.
Proof. by destruct sd. Qed.

Lemma set_levels_id sd b : set_levels sd (levels sd b) b = b.
Proof. by destruct sd, b. Qed.

(** A statement on one side of a book that is there writes the side back
    in place. *)
Lemma on_levels_run perp symbol sd f w book m :
  books perp w !! symbol = Some book →
  f (levels sd book) = Return m →
  on_levels perp symbol sd f w =
    (set_books perp (<[symbol := set_levels sd m book]>) w, Return tt).
Proof.
  intros Hb Hf. unfold on_levels, bind, getbook, lift, modify.
  by rewrite Hb, Hf.
Qed.

Lemma merge_level_run perp symbol sd x p q w book :
  books perp w !! symbol = Some book →
  level_of x = Return (p, q) →
  merge_level perp symbol sd x w =
    (set_books perp
       (<[symbol := set_levels sd
            (if decide (0 < q)%Qc then <[p := q]> (levels sd book)
             else delete p (levels sd book)) book]>) w,
     Return tt).
Proof.
  intros Hb Hx. unfold merge_level, bind at 1, lift. rewrite Hx. simpl.
  by apply on_levels_run, update_level_returns.
Qed.

(** C1. Let [book] be the book of a symbol and (p, q) the price and the
    quantity of an update of one side.  Merging the update raises nothing
    and writes a new side [m] into the book, which differs from the old
    one at most at p.  With q > 0 the side holds q at p.  With q <= 0 it
    holds no level at p, and if it held none before, the whole world is
    left as it was.  Merging (p, q) and then (p, q2) with q2 > 0 leaves q2
    at p and the other prices as they were at the start. *)
Theorem merge_level_spec (perp : bool) (symbol : string) (sd : side)
    (x : json) (p q : Decimal) (w : world) (book : lob) :
  books perp w !! symbol = Some book →
  level_of x = Return (p, q) →
  ∃ m,
    merge_level perp symbol sd x w =
      (set_books perp (<[symbol := set_levels sd m book]>) w, Return tt) ∧
    delete p m = delete p (levels sd book) ∧
    ((0 < q)%Qc → m !! p = Some q) ∧
    ((q <= 0)%Qc → m !! p = None) ∧
    ((q <= 0)%Qc → levels sd book !! p = None →
       merge_level perp symbol sd x w = (w, Return tt)) ∧
    (∀ x2 q2, level_of x2 = Return (p, q2) → (0 < q2)%Qc →
       ∃ m2,
         (let* _ := merge_level perp symbol sd x in
          merge_level perp symbol sd x2) w =
           (set_books perp (<[symbol := set_levels sd m2 book]>) w, Return tt) ∧
         m2 !! p = Some q2 ∧
         delete p m2 = delete p (levels sd book)).
Proof.
  intros Hb Hx.
  destruct (update_level_cases (levels sd book) p q)
    as (m & Hm & Hdel & Hpos & Hneg & Hid).
  rewrite update_level_returns in Hm. injection Hm as Hm.
  pose proof (merge_level_run perp symbol sd x p q w book Hb Hx) as Hrun.
  rewrite Hm in Hrun.
  exists m. split_and!; try done.
  - intros Hq Hp. rewrite Hrun, (Hid Hq Hp), set_levels_id.
    f_equal. apply set_books_id. by apply insert_id.
  - intros x2 q2 Hx2 Hq2.
    exists (<[p := q2]> m). split_and!.
    + unfold bind. rewrite Hrun.
      rewrite (merge_level_run perp symbol sd x2 p q2 _ (set_levels sd m book));
        [|by rewrite books_set_books, lookup_insert_eq|done].
      rewrite decide_True by done.
      rewrite set_books_set_books, levels_set_levels, set_levels_set_levels.
      f_equal. destruct perp, w; simpl; f_equal; apply insert_insert_eq.
    + apply lookup_insert_eq.
    + by rewrite delete_insert_eq.
Qed.

Lemma merge_level_spec_witness :
  let book := Lob {[ scale10 100 0 := scale10 2 0 ]} ∅ in
  let w := set_books false (<[ "BTCUSDT" := book ]>) __init__ in
  ∃ m,
    merge_level false "BTCUSDT" Bids (JArr [JStr "100.0"; JStr "5"]) w =
      (set_books false (<["BTCUSDT" := set_levels Bids m book]>) w, Return tt) ∧
    m !! scale10 100 0 = Some (scale10 5 0).
Proof.
  intros book w.
  destruct (merge_level_spec false "BTCUSDT" Bids
              (JArr [JStr "100.0"; JStr "5"]) (scale10 100 0) (scale10 5 0)
              w book) as (m & Hrun & _ & Hpos & _).
  - compute_done.
  - compute_done.
  - exists m. split; [exact Hrun|]. apply Hpos. compute_done.
Defined.

(** *** What a statement maintains *)

Section keeps.
Context (P : world → Prop).

Lemma keeps_ret {A} (a : A) : keeps P (ret a).
Proof. by intros w. Qed.

Lemma keeps_raise {A} (e : exn) : keeps P (raise (A := A) e).
Proof. by intros w. Qed.

Lemma keeps_lift {A} (r : result A) : keeps P (lift r).
Proof. by intros w. Qed.

Lemma keeps_modify (f : world → world) :
  (∀ w, P w → P (f w)) → keeps P (modify f).
Proof. intros Hf w. apply Hf. Qed.

Lemma keeps_bind {A B} (c : M A) (k : A → M B) :
  keeps P c → (∀ a, keeps P (k a)) → keeps P (bind c k).
Proof.
  intros Hc Hk w Hw. unfold bind. specialize (Hc w Hw).
  destruct (c w) as [w' [a|e]]; simpl in *; [by apply Hk|done].
Qed.

Lemma keeps_for {A} (xs : list A) (body : A → M unit) :
  (∀ x, x ∈ xs → keeps P (body x)) → keeps P (for_ xs body).
Proof.
  induction xs as [|x xs IH]; intros Hbody; simpl.
  - apply keeps_ret.
  - apply keeps_bind; [apply Hbody; left|intros _].
    apply IH. intros y Hy. apply Hbody. by right.
Qed.

Lemma keeps_getbook perp symbol : keeps P (getbook perp symbol).
Proof. intros w Hw. unfold getbook. by destruct (_ !! _). Qed.

(** A statement on one side of a book maintains [P] when [P] allows
    what it computes to be stored. *)
Lemma keeps_on_levels perp symbol sd f :
  (∀ w book m, P w → books perp w !! symbol = Some book →
     f (levels sd book) = Return m →
     P (set_books perp (<[symbol := set_levels sd m book]>) w)) →
  keeps P (on_levels perp symbol sd f).
Proof.
  intros Hstore w Hw. unfold on_levels, bind, getbook, lift, modify.
  destruct (books perp w !! symbol) as [book|] eqn:Hb; [|done].
  destruct (f (levels sd book)) as [m|e] eqn:Hm; [|done].
  simpl. eauto.
Qed.
End keeps.

Section keeps_ignoring_levels.
(** [P] looks at the books only to see which symbols have one. *)
Context (P : world → Prop).
Hypothesis P_books : ∀ w perp symbol b,
  P w → is_Some (books perp w !! symbol) →
  P (set_books perp (<[symbol := b]>) w).

Lemma keeps_on_levels_any perp symbol sd f : keeps P (on_levels perp symbol sd f).
Proof.
  apply keeps_on_levels.
  intros w book m Hw Hb _. apply P_books; eauto.
Qed.

Lemma keeps_setitems perp symbol sd l : keeps P (for_ l (setitem perp symbol sd)).
Proof. apply keeps_for; intros ? _; apply keeps_on_levels_any. Qed.

Lemma keeps_merge_levels perp symbol sd l :
  keeps P (for_ l (merge_level perp symbol sd)).
Proof.
  apply keeps_for; intros ? _; apply keeps_bind;
    [apply keeps_lift|intros ?; apply keeps_on_levels_any].
Qed.

Lemma keeps_merge_updates perp symbol updates :
  keeps P (merge_updates perp symbol updates).
Proof.
  unfold merge_updates.
  repeat (apply keeps_bind;
          [first [apply keeps_lift|apply keeps_merge_levels]|intros ?]).
  apply keeps_merge_levels.
Qed.

(** ... and does not look at the requests issued. *)
Hypothesis P_request : ∀ w r, P w → P (log_request r w).

Lemma keeps_on_order_book api symbol limit :
  keeps P (on_order_book api symbol limit).
Proof.
  intros w Hw. unfold on_order_book, urlopen.
  destruct (_ && _); simpl; by apply P_request.
Qed.

Lemma keeps_initialize api perp symbol : keeps P (initialize api perp symbol).
Proof.
  unfold initialize.
  apply keeps_bind; [apply keeps_on_order_book|intros ob].
  apply keeps_bind; [|intros _]; apply keeps_setitems.
Qed.

Lemma keeps_update_order_book api symbol updates :
  keeps P (update_order_book api symbol updates).
Proof.
  unfold update_order_book.
  apply keeps_bind; [apply keeps_getbook|intros book].
  apply keeps_bind; [|intros _; apply keeps_merge_updates].
  destruct (_ && _); [apply keeps_initialize|apply keeps_ret].
Qed.
End keeps_ignoring_levels.

(** *** Bootstrap on the first update *)

Lemma on_order_book_run api symbol w :
  on_order_book api symbol 1000 w =
    (log_request (request_for symbol) w,
     fetched (api (length (requests w)) (request_for symbol))).
Proof.
  unfold on_order_book, urlopen, fetched, request_for.
  by destruct (_ && _).
Qed.

Lemma for_setitem_run perp symbol sd l w book :
  books perp w !! symbol = Some book →
  for_ l (setitem perp symbol sd) w =
    (set_books perp
       (<[symbol := set_levels sd (snapshot_levels l (levels sd book)) book]>) w,
     Return tt).
Proof.
  revert w book. induction l as [|pq l IH]; intros w book Hb; simpl.
  - unfold ret. f_equal. symmetry. apply set_books_id.
    rewrite set_levels_id. by apply insert_id.
  - unfold bind, setitem.
    rewrite (on_levels_run _ _ _ _ _ book (<[pq.1 := pq.2]> (levels sd book)))
      by done.
    rewrite (IH _ (set_levels sd (<[pq.1:=pq.2]> (levels sd book)) book))
      by (by rewrite books_set_books, lookup_insert_eq).
    rewrite set_books_set_books, levels_set_levels, set_levels_set_levels.
    f_equal. destruct perp, w; simpl; f_equal; apply insert_insert_eq.
Qed.

Lemma initialize_run api perp symbol w ob :
  books perp w !! symbol = Some (Lob ∅ ∅) →
  fetched (api (length (requests w)) (request_for symbol)) = Return ob →
  initialize api perp symbol w =
    (set_books perp
       (<[symbol := Lob (snapshot_levels (bids ob) ∅)
                        (snapshot_levels (asks ob) ∅)]>)
       (log_request (request_for symbol) w),
     Return tt).
Proof.
  intros Hb Hf. unfold initialize, bind.
  rewrite on_order_book_run, Hf.
  rewrite (for_setitem_run perp symbol Asks (asks ob) _ (Lob ∅ ∅))
    by (by destruct perp).
  simpl.
  rewrite (for_setitem_run perp symbol Bids (bids ob) _
             (Lob ∅ (snapshot_levels (asks ob) ∅)))
    by (by rewrite books_set_books, lookup_insert_eq).
  simpl. rewrite set_books_set_books.
  f_equal. destruct perp, w; simpl; f_equal; apply insert_insert_eq.
Qed.

Lemma initialize_requests api perp symbol w :
  requests (initialize api perp symbol w).1 = requests w ++ [request_for symbol].
Proof.
  unfold initialize.
  pose (P := λ w' : world, requests w' = requests w ++ [request_for symbol]).
  change (P (bind (on_order_book api symbol 1000) (λ order_book,
            bind (for_ (asks order_book) (setitem perp symbol Asks))
              (λ _, for_ (bids order_book) (setitem perp symbol Bids))) w).1).
  unfold bind at 1. rewrite on_order_book_run.
  destruct (fetched _) as [ob|e]; [|done].
  apply (keeps_bind P); [| |done]; [|intros _];
    apply keeps_setitems; by intros [] [].
Qed.

Lemma len_0 (m : gmap Decimal Decimal) : (len m =? 0)%nat = true ↔ m = ∅.
Proof. unfold len. rewrite Nat.eqb_eq. apply map_size_empty_iff. Qed.

Lemma merge_updates_requests perp symbol updates w :
  requests (merge_updates perp symbol updates w).1 = requests w.
Proof.
  apply (keeps_merge_updates (λ w', requests w' = requests w)); [|done].
  by intros [] [].
Qed.

Lemma update_order_book_run api symbol updates w book :
  let perp := has_underscore symbol in
  books perp w !! symbol = Some book →
  update_order_book api symbol updates w =
    if (len (lob_asks book) =? 0)%nat && (len (lob_bids book) =? 0)%nat
    then (let* _ := initialize api perp symbol in
          merge_updates perp symbol updates) w
    else merge_updates perp symbol updates w.
Proof.
  intros perp Hb. unfold update_order_book. fold perp.
  unfold bind at 1, getbook. rewrite Hb.
  by destruct (_ && _).
Qed.

(** C2. An update for a symbol whose book is empty on both sides issues
    exactly one snapshot request, whatever comes of it; when the snapshot
    is served, its levels are stored into the empty book, asks and bids,
    and the update is then merged into that book.  An update for a book
    with a level on either side issues no request and is merged into the
    book as it is. *)
Theorem update_order_book_bootstrap (api : rest_api) (symbol : string)
    (updates : json) (w : world) (book : lob) :
  let perp := has_underscore symbol in
  books perp w !! symbol = Some book →
  (lob_asks book = ∅ → lob_bids book = ∅ →
     requests (update_order_book api symbol updates w).1 =
       requests w ++ [request_for symbol] ∧
     ∀ ob, fetched (api (length (requests w)) (request_for symbol)) = Return ob →
       update_order_book api symbol updates w =
         merge_updates perp symbol updates
           (set_books perp
              (<[symbol := Lob (snapshot_levels (bids ob) ∅)
                               (snapshot_levels (asks ob) ∅)]>)
              (log_request (request_for symbol) w))) ∧
  (lob_asks book ≠ ∅ ∨ lob_bids book ≠ ∅ →
     requests (update_order_book api symbol updates w).1 = requests w ∧
     update_order_book api symbol updates w = merge_updates perp symbol updates w).
Proof.
  intros perp Hb.
  rewrite (update_order_book_run api symbol updates w book Hb). fold perp.
  split.
  - intros Ha Hbd.
    rewrite (proj2 (len_0 _) Ha), (proj2 (len_0 _) Hbd). simpl.
    destruct book as [bb ba]; simpl in *; subst.
    split.
    + unfold bind.
      pose proof (initialize_requests api perp symbol w) as Hreq.
      destruct (initialize api perp symbol w) as [w' [[]|e]]; simpl in *;
        [|done].
      by rewrite merge_updates_requests.
    + intros ob Hob. unfold bind.
      by rewrite (initialize_run api perp symbol w ob Hb Hob).
  - intros Hne.
    assert ((len (lob_asks book) =? 0)%nat && (len (lob_bids book) =? 0)%nat
            = false) as ->.
    { apply andb_false_iff.
      destruct Hne as [Hne|Hne]; [left|right];
        apply not_true_is_false; by rewrite len_0. }
    split; [apply merge_updates_requests|done].
Qed.

Lemma update_order_book_bootstrap_witness :
  let level p q := JArr [JStr p; JStr q] in
  let snapshot := JObj [("bids", JArr [level "100.0" "2"]);
                        ("asks", JArr [level "101.0" "3"])] in
  let api : rest_api := λ _ _, Response 200 (Text "" (Some snapshot)) in
  let updates := JObj [("a", JArr [level "101.0" "7"]); ("b", JArr [])] in
  let w := (open_stream_order_book "BTCUSDT" __init__).1 in
  requests (update_order_book api "BTCUSDT" updates w).1 =
    [request_for "BTCUSDT"] ∧
  _order_books (update_order_book api "BTCUSDT" updates w).1 !! "BTCUSDT" =
    Some (Lob {[ scale10 100 0 := scale10 2 0 ]}
              {[ scale10 101 0 := scale10 7 0 ]}).
Proof.
  intros level snapshot api updates w.
  destruct (update_order_book_bootstrap api "BTCUSDT" updates w (Lob ∅ ∅))
    as [Hempty _]; [compute_done|].
  destruct Hempty as [Hreq Hrun]; [reflexivity|reflexivity|].
  split; [exact Hreq|].
  rewrite (Hrun (mkOrderBook [(scale10 100 0, scale10 2 0)]
                             [(scale10 101 0, scale10 3 0)]));
    compute_done.
Defined.

(** *** The steps of the process *)

Lemma for_modify_run {A} (xs : list A) (f : A → world → world) w :
  for_ xs (λ x, modify (f x)) w = (foldl (λ w x, f x w) w xs, Return tt).
Proof.
  revert w. induction xs as [|x xs IH]; intros w; simpl; [done|].
  unfold bind, modify at 1. apply IH.
Qed.

Lemma foldl_set_tasks {A} (xs : list A) (f : A → list task_state → list task_state) w :
  foldl (λ w x, set_tasks (f x) w) w xs =
    set_tasks (λ ts, foldl (λ ts x, f x ts) ts xs) w.
Proof.
  revert w. induction xs as [|x xs IH]; intros w; simpl; [by destruct w|].
  rewrite IH. by destruct w.
Qed.

(** [close] in one piece: the tasks recorded in [_tasks] are cancelled in
    turn and [_sockets] is emptied. *)
Lemma close_run w :
  close w =
    (log_stdout "closed all streams"
       (set_sockets (λ _, ∅)
          (set_tasks (λ ts, foldl (λ ts kt, cancel kt.2 ts) ts
                              (map_to_list (_tasks w)))
             (log_stdout "closing all streams" w))),
     Return tt).
Proof.
  unfold close, bind, modify at 1. simpl.
  rewrite for_modify_run. unfold modify.
  by rewrite foldl_set_tasks.
Qed.

Section process.
Context (api : rest_api) (callback : json → M unit).
Context (Hcallback : leaves_stream callback).
Context (P : world → Prop).

(** [P] is about the books and the open set only, is maintained by
    updates of a book and by additions to the open set. *)
Hypothesis P_fields : ∀ w w',
  _order_books w = _order_books w' →
  _order_books_perp w = _order_books_perp w' →
  _sockets w = _sockets w' →
  P w → P w'.
Hypothesis P_update : ∀ symbol updates,
  keeps P (update_order_book api symbol updates).
Hypothesis P_add : ∀ id w, P w → P (set_sockets (λ s, {[id]} ∪ s) w).

Lemma keeps_callback data : keeps P (callback data).
Proof.
  intros w Hw. destruct (Hcallback data w) as (H1 & H2 & H3 & _ & _).
  by apply (P_fields w).
Qed.

Lemma keeps_run_start url id : keeps P (run_start url id).
Proof.
  intros w Hw. unfold run_start.
  destruct (decide _); simpl; by apply (P_fields w).
Qed.

Lemma keeps_run_loop id : keeps P (run_loop id).
Proof.
  intros w Hw. unfold run_loop.
  destruct (decide _); simpl; by apply (P_fields w).
Qed.

Lemma keeps_run_connected id : keeps P (run_connected id).
Proof. intros w Hw. unfold run_connected. by apply keeps_run_loop, P_add. Qed.

Lemma keeps_del_task id : keeps P (del_task id).
Proof.
  intros w Hw. unfold del_task.
  destruct (_ !! _); simpl; by apply (P_fields w).
Qed.

Lemma keeps_run_received_body id msg :
  keeps P (run_received_body api callback id msg).
Proof.
  unfold run_received_body.
  apply keeps_bind; [apply keeps_lift|intros data].
  apply keeps_bind; [apply keeps_del_task|intros _].
  apply keeps_bind; [|intros ?; apply keeps_callback].
  destruct (find_is_0 id "depth"); [|apply keeps_ret].
  apply keeps_bind; [|intros data'].
  { destruct (find_is_0 id "depth_perp"); [apply keeps_lift|apply keeps_ret]. }
  apply keeps_bind; [apply keeps_lift|intros symbol].
  apply keeps_bind; [|intros _; apply keeps_ret].
  destruct symbol; first [apply keeps_raise|apply P_update].
Qed.

Lemma keeps_run_received id t outcome :
  keeps P (run_received api callback id t outcome).
Proof.
  intros w Hw. unfold run_received.
  destruct (tasks w !! t) as [[]|]; try done;
    (destruct outcome as [msg|e]; simpl; [|by apply (P_fields w)];
     pose proof (keeps_run_received_body id msg
                   (set_tasks (<[t := Finished]>) w)) as Hbody;
     destruct (run_received_body _ _ _ _ _) as [w' []]; simpl in *;
     apply Hbody; by apply (P_fields w)).
Qed.

Lemma exec_quiet a w : quiet a → P w → P (exec api callback a w).
Proof.
  destruct a; simpl; try done; intros _.
  - apply P_update.
  - apply keeps_run_start.
  - apply keeps_run_connected.
  - apply keeps_run_received.
  - apply keeps_run_loop.
Qed.
End process.

Lemma exec_all_keeps api callback (P : world → Prop) (allowed : action → Prop) :
  (∀ a w, allowed a → P w → P (exec api callback a w)) →
  ∀ trace w, Forall allowed trace → P w → P (exec_all api callback trace w).
Proof.
  intros Hstep trace. induction trace as [|a trace IH]; intros w Hall Hw.
  - done.
  - inversion Hall; subst. simpl. apply IH; [done|]. by apply Hstep.
Qed.

(** *** Books that were never opened *)

Lemma no_book_set_books symbol w perp symbol' b :
  no_book symbol w → is_Some (books perp w !! symbol') →
  no_book symbol (set_books perp (<[symbol' := b]>) w).
Proof.
  intros [H1 H2] [b' Hb].
  destruct perp; split; simpl in *; try done;
    (rewrite lookup_insert_ne; [done|congruence]).
Qed.

Lemma exec_no_book api callback symbol a w :
  leaves_stream callback → ¬ opens symbol a →
  no_book symbol w → no_book symbol (exec api callback a w).
Proof.
  intros Hcb Ha Hw.
  assert (∀ s u, keeps (no_book symbol) (update_order_book api s u)) as Hupd.
  { intros s u. apply keeps_update_order_book.
    - intros. by apply no_book_set_books.
    - by intros [] ? ?. }
  destruct a;
    try (apply (exec_quiet api callback Hcb (no_book symbol));
         [intros ? ? H1 H2 _ [? ?]; split; congruence|exact Hupd
         |by intros ? ? [? ?]|done|done]).
  - destruct Hw as [H1 H2]. split; simpl; [|done].
    rewrite lookup_insert_ne; [done|]. intros ->. apply Ha. by left.
  - destruct Hw as [H1 H2]. split; simpl; [done|].
    rewrite lookup_insert_ne; [done|]. intros ->. apply Ha. by right.
  - unfold exec. rewrite close_run. by destruct w.
Qed.

Lemma call_order_book_leaves_stream : leaves_stream call_order_book.
Proof.
  intros data w. unfold call_order_book, bind, lift, modify.
  repeat (case_match; simplify_eq; simpl; try done);
    unfold get_order_book_perp, get_order_book, getbook in *;
    repeat (case_match; simplify_eq; simpl; try done).
Qed.

(** C9. As long as no stream was opened for a symbol, whatever else the
    process did since the stream object was created, looking up the book of
    the symbol raises KeyError, in [get_order_book], in
    [get_order_book_perp] and in [update_order_book], and leaves the world
    as it is: no book is returned and none is created. *)
Theorem unopened_symbol_KeyError (api : rest_api) (callback : json → M unit)
    (trace : list action) (symbol : string) :
  leaves_stream callback →
  Forall (λ a, ¬ opens symbol a) trace →
  let w := exec_all api callback trace __init__ in
  get_order_book symbol w = (w, Raise KeyError) ∧
  get_order_book_perp symbol w = (w, Raise KeyError) ∧
  ∀ updates, update_order_book api symbol updates w = (w, Raise KeyError).
Proof.
  intros Hcb Htrace w.
  assert (no_book symbol w) as [H1 H2].
  { apply (exec_all_keeps api callback (no_book symbol)
             (λ a, ¬ opens symbol a)); [|done|done].
    intros a w'. by apply exec_no_book. }
  unfold get_order_book, get_order_book_perp, update_order_book, bind, getbook.
  simpl. rewrite H1, H2. split_and!; try done.
  intros updates. by destruct (has_underscore symbol); simpl; rewrite ?H1, ?H2.
Qed.

Lemma unopened_symbol_KeyError_witness :
  let api : rest_api := λ _ _, Response 500 (Text "" None) in
  let w := exec_all api call_order_book
             [Open "ETHUSDT"; Start "wss://stream.binance.com:9443/ws/ethusdt@depth" "depth_ethusdt";
              Connected "depth_ethusdt"] __init__ in
  get_order_book "BTCUSDT" w = (w, Raise KeyError) ∧
  update_order_book api "BTCUSDT" (JObj []) w = (w, Raise KeyError).
Proof.
  intros api w.
  destruct (unopened_symbol_KeyError api call_order_book
              [Open "ETHUSDT"; Start "wss://stream.binance.com:9443/ws/ethusdt@depth" "depth_ethusdt";
               Connected "depth_ethusdt"] "BTCUSDT") as (H1 & _ & H3).
  - exact call_order_book_leaves_stream.
  - repeat constructor; intros [H|H]; discriminate H.
  - split; [exact H1|exact (H3 (JObj []))].
Defined.

(** *** Shutdown *)

Lemma cancel_lookup t' t ts :
  cancel t' ts !! t =
    if decide (t = t')
    then match ts !! t with Some Pending => Some Cancelled | o => o end
    else ts !! t.
Proof.
  unfold cancel. destruct (decide (t = t')) as [->|Hne].
  - destruct (ts !! t') as [[]|] eqn:Ht; try done.
    apply list_lookup_insert_eq. by eapply lookup_lt_Some.
  - destruct (ts !! t') as [[]|]; try done.
    by apply list_lookup_insert_ne.
Qed.

Lemma cancel_all_Cancelled (l : list (string * nat)) ts t :
  ts !! t = Some Cancelled →
  foldl (λ ts kt, cancel kt.2 ts) ts l !! t = Some Cancelled.
Proof.
  revert ts. induction l as [|kt l IH]; intros ts Ht; simpl; [done|].
  apply IH. rewrite cancel_lookup, Ht. by destruct (decide _).
Qed.

Lemma cancel_all_Pending (l : list (string * nat)) ts id t :
  (id, t) ∈ l → ts !! t = Some Pending →
  foldl (λ ts kt, cancel kt.2 ts) ts l !! t = Some Cancelled.
Proof.
  revert ts. induction l as [|kt l IH]; intros ts Hin Ht; simpl.
  - by apply not_elem_of_nil in Hin.
  - apply elem_of_cons in Hin as [<-|Hin].
    + apply cancel_all_Cancelled. simpl.
      rewrite cancel_lookup, Ht. by rewrite decide_True.
    + destruct (decide (t = kt.2)) as [Heq|Hne].
      * apply cancel_all_Cancelled.
        rewrite cancel_lookup, Ht. by rewrite decide_True.
      * apply IH; [done|]. rewrite cancel_lookup. by rewrite decide_False.
Qed.

Lemma cancel_all_was_Pending (l : list (string * nat)) ts t :
  foldl (λ ts kt, cancel kt.2 ts) ts l !! t = Some Pending →
  ts !! t = Some Pending.
Proof.
  revert ts. induction l as [|kt l IH]; intros ts Ht; simpl in *; [done|].
  apply IH in Ht. rewrite cancel_lookup in Ht.
  destruct (decide _); [|done]. by destruct (ts !! t) as [[]|].
Qed.

(** With the coroutines tracked, every pending receive task is recorded. *)

Lemma pending_recorded_resumed w cs w' id c' :
  pending_recorded w cs →
  (∀ t, tasks w' !! t = Some Pending →
        tasks w !! t = Some Pending ∧ cs !! id ≠ Some (Receiving t)) →
  (∀ id', id' ≠ id → _tasks w' !! id' = _tasks w !! id') →
  pending_recorded w' (<[id := c']> cs).
Proof.
  intros Hw Htasks Hmap t Ht.
  destruct (Htasks t Ht) as [Ht0 Hid].
  destruct (Hw t Ht0) as (id' & Hc & Hrec).
  assert (id' ≠ id) by congruence.
  exists id'. by rewrite lookup_insert_ne, Hmap.
Qed.

Lemma pending_recorded_run_loop w cs id :
  pending_recorded w cs →
  (∀ t, cs !! id ≠ Some (Receiving t)) →
  pending_recorded (run_loop id w).1 (<[id := (run_loop id w).2]> cs).
Proof.
  intros Hw Hid. unfold run_loop. destruct (decide _); simpl.
  - intros t Ht. simpl in Ht.
    destruct (decide (t = length (tasks w))) as [->|Hne].
    + exists id. split; [apply lookup_insert_eq|simpl; apply lookup_insert_eq].
    + assert (tasks w !! t = Some Pending) as Ht0.
      { destruct (decide (t < length (tasks w))%nat).
        - by rewrite lookup_app_l in Ht.
        - rewrite lookup_app_r in Ht by lia.
          destruct (t - length (tasks w))%nat as [|k] eqn:Hk; [lia|done]. }
      destruct (Hw t Ht0) as (id' & Hc & Hrec).
      assert (id' ≠ id) by (intros ->; by apply (Hid t)).
      exists id'. split; [by rewrite lookup_insert_ne|].
      simpl. by rewrite lookup_insert_ne.
  - apply (pending_recorded_resumed w); [done| |done].
    intros t Ht. split; [done|apply Hid].
Qed.

Lemma update_order_book_tasks api symbol updates w :
  tasks (update_order_book api symbol updates w).1 = tasks w ∧
  _tasks (update_order_book api symbol updates w).1 = _tasks w.
Proof.
  apply (keeps_update_order_book (λ w', tasks w' = tasks w ∧ _tasks w' = _tasks w));
    [by intros ? [] ? ?|done|done].
Qed.

Lemma run_received_body_frame api callback id msg w :
  leaves_stream callback →
  tasks (run_received_body api callback id msg w).1 = tasks w ∧
  ∀ id', id' ≠ id →
    _tasks (run_received_body api callback id msg w).1 !! id' = _tasks w !! id'.
Proof.
  intros Hcb.
  pose (P := λ w', tasks w' = tasks w ∧
                   ∀ id', id' ≠ id → _tasks w' !! id' = _tasks w !! id').
  assert (keeps P (run_received_body api callback id msg)) as Hkeeps.
  { unfold run_received_body.
    apply keeps_bind; [apply keeps_lift|intros data].
    apply keeps_bind.
    { intros w0 [H1 H2]. unfold del_task. destruct (_tasks w0 !! id); [|done].
      split; [done|]. intros id' Hid'. simpl.
      rewrite lookup_delete_ne by done. by apply H2. }
    intros _. apply keeps_bind.
    - destruct (find_is_0 id "depth"); [|apply keeps_ret].
      apply keeps_bind; [|intros data'].
      { destruct (find_is_0 id "depth_perp"); [apply keeps_lift|apply keeps_ret]. }
      apply keeps_bind; [apply keeps_lift|intros symbol].
      apply keeps_bind; [|intros _; apply keeps_ret].
      destruct symbol; try apply keeps_raise.
      apply keeps_update_order_book; [by intros ? [] ? ?|done].
    - intros data2 w0 [H1 H2].
      destruct (Hcb data2 w0) as (_ & _ & _ & Hm & Ht).
      split; [congruence|]. intros id' Hid'. rewrite Hm. by apply H2. }
  by apply Hkeeps.
Qed.

Lemma tracked_pending_recorded api callback w cs :
  leaves_stream callback →
  tracked api callback w cs → pending_recorded w cs.
Proof.
  intros Hcb Htracked.
  induction Htracked as [|w cs symbol _ IH|w cs symbol _ IH
                        |w cs symbol updates _ IH|w cs _ IH
                        |w cs url id _ IH Hid|w cs id _ IH Hid
                        |w cs id t0 outcome _ IH Hid|w cs id _ IH Hid].
  - by intros [|t] Ht.
  - exact IH.
  - exact IH.
  - intros t Ht.
    destruct (update_order_book_tasks api symbol updates w) as [H1 H2].
    rewrite H1 in Ht. rewrite H2. by apply IH.
  - intros t Ht. rewrite close_run in Ht. simpl in Ht.
    pose proof (cancel_all_was_Pending _ _ _ Ht) as Ht0.
    destruct (IH t Ht0) as (id & _ & Hrec).
    apply elem_of_map_to_list in Hrec.
    by rewrite (cancel_all_Pending _ _ id t Hrec Ht0) in Ht.
  - apply (pending_recorded_resumed w); [done| |].
    + intros t Ht. split.
      * unfold run_start in Ht. by destruct (decide _).
      * intros Hc. apply Hid. by rewrite Hc.
    + intros id' _. unfold run_start. by destruct (decide _).
  - unfold run_connected. apply pending_recorded_run_loop; [exact IH|].
    intros t. by rewrite Hid.
  - unfold run_received.
    destruct (tasks w !! t0) as [st|] eqn:Ht0.
    + destruct st.
      * (* the task was pending *)
        destruct outcome as [msg|e]; simpl.
        -- destruct (run_received_body_frame api callback id msg
                       (set_tasks (<[t0 := Finished]>) w) Hcb) as [H1 H2].
           assert (∀ c', pending_recorded
                           (run_received_body api callback id msg
                              (set_tasks (<[t0 := Finished]>) w)).1
                           (<[id := c']> cs)) as Hstep.
           { intros c'. apply (pending_recorded_resumed w); [done| |done].
             intros t Ht. rewrite H1 in Ht. simpl in Ht.
             destruct (decide (t = t0)) as [->|Hne].
             - rewrite list_lookup_insert_eq in Ht; [done|].
               by eapply lookup_lt_Some.
             - rewrite list_lookup_insert_ne in Ht by done.
               split; [done|congruence]. }
           destruct (run_received_body _ _ _ _ _) as [w' [[]|e]]; apply Hstep.
        -- apply (pending_recorded_resumed w); [done| |done].
           intros t Ht. simpl in Ht.
           destruct (decide (t = t0)) as [->|Hne].
           ++ rewrite list_lookup_insert_eq in Ht; [done|].
              by eapply lookup_lt_Some.
           ++ rewrite list_lookup_insert_ne in Ht by done.
              split; [done|congruence].
      * (* it had finished before *)
        assert (set_tasks (<[t0 := Finished]>) w = w) as Hsame.
        { destruct w; unfold set_tasks; simpl in *. f_equal.
          by apply list_insert_id. }
        rewrite Hsame.
        destruct outcome as [msg|e]; simpl.
        -- destruct (run_received_body_frame api callback id msg w Hcb)
             as [H1 H2].
           assert (∀ c', pending_recorded
                           (run_received_body api callback id msg w).1
                           (<[id := c']> cs)) as Hstep.
           { intros c'. apply (pending_recorded_resumed w); [done| |done].
             intros t Ht. rewrite H1 in Ht. split; [done|congruence]. }
           destruct (run_received_body _ _ _ _ _) as [w' [[]|e]]; apply Hstep.
        -- apply (pending_recorded_resumed w); [done| |done].
           intros t Ht. split; [done|congruence].
      * (* it was cancelled *)
        simpl. apply (pending_recorded_resumed w); [done| |done].
        intros t Ht. split; [done|congruence].
    + assert (set_tasks (<[t0 := Finished]>) w = w) as Hsame.
      { destruct w; unfold set_tasks; simpl in *. f_equal.
        apply list_insert_ge. by apply lookup_ge_None. }
      rewrite Hsame.
      destruct outcome as [msg|e]; simpl.
      * destruct (run_received_body_frame api callback id msg w Hcb)
          as [H1 H2].
        assert (∀ c', pending_recorded
                        (run_received_body api callback id msg w).1
                        (<[id := c']> cs)) as Hstep.
        { intros c'. apply (pending_recorded_resumed w); [done| |done].
          intros t Ht. rewrite H1 in Ht. split; [done|congruence]. }
        destruct (run_received_body _ _ _ _ _) as [w' [[]|e]]; apply Hstep.
      * apply (pending_recorded_resumed w); [done| |done].
        intros t Ht. split; [done|congruence].
  - unfold run_woken. apply pending_recorded_run_loop; [exact IH|].
    intros t. by rewrite Hid.
Qed.



(** *** Failures of the snapshot request *)






(** *** The spread *)

#[local] Instance key_le_trans : Transitive key_le.
Proof. intros x y z. unfold key_le. apply Qcle_trans. Qed.

#[local] Instance key_le_total : Total key_le.
Proof.
  intros x y. unfold key_le.
  destruct (Qclt_le_dec x.1 y.1); [left; by apply Qclt_le_weak|by right].
Qed.

#[local] Instance flip_key_le_trans : Transitive (flip key_le).
Proof. intros x y z Hxy Hyz. by apply (key_le_trans z y x). Qed.

#[local] Instance flip_key_le_total : Total (flip key_le).
Proof. intros x y. destruct (key_le_total x y); [by right|by left]. Qed.

Lemma first_of_merge_sort (R : relation (Decimal * Decimal))
    `{∀ x y, Decision (R x y)} `{!Transitive R} `{!Total R}
    (m : gmap Decimal Decimal) :
  m ≠ ∅ →
  ∃ kv, first_key (merge_sort R (map_to_list m)) = Return kv.1 ∧
        is_Some (m !! kv.1) ∧
        ∀ k v, m !! k = Some v → R kv (k, v).
Proof.
  intros Hm.
  pose proof (StronglySorted_merge_sort R (map_to_list m)) as Hsorted.
  pose proof (merge_sort_Permutation R (map_to_list m)) as Hperm.
  destruct (merge_sort R (map_to_list m)) as [|kv l] eqn:Hl.
  - symmetry in Hperm. apply Permutation_nil_r in Hperm.
    by apply map_to_list_empty_iff in Hperm.
  - exists kv. split_and!; [done| |].
    + assert (kv ∈ map_to_list m) as Hin by (rewrite <-Hperm; left).
      destruct kv as [k v]. apply elem_of_map_to_list in Hin. by eexists.
    + intros k v Hkv. apply elem_of_map_to_list in Hkv.
      rewrite <-Hperm in Hkv.
      apply StronglySorted_inv in Hsorted as [_ Hall].
      apply elem_of_cons in Hkv as [Heq|Hin].
      * rewrite Heq. destruct (total R kv kv); done.
      * rewrite Forall_forall in Hall. by apply Hall.
Qed.

Lemma first_key_sorted (reverse : bool) (m : gmap Decimal Decimal) :
  m ≠ ∅ →
  ∃ k, first_key (sorted reverse m) = Return k ∧
       if reverse then highest k m else lowest k m.
Proof.
  intros Hm. unfold sorted. destruct reverse.
  - destruct (first_of_merge_sort (flip key_le) m Hm) as (kv & Hkv & Hin & Hle).
    exists (fst kv). split; [done|]. split; [done|].
    intros k' [v' Hk']. apply (Hle k' v' Hk').
  - destruct (first_of_merge_sort key_le m Hm) as (kv & Hkv & Hin & Hle).
    exists (fst kv). split; [done|]. split; [done|].
    intros k' [v' Hk']. apply (Hle k' v' Hk').
Qed.

Lemma first_key_sorted_empty (reverse : bool) :
  first_key (sorted reverse ∅) = Raise IndexError.
Proof. by destruct reverse. Qed.

(** C8, as the code has it.  On a book with levels on both sides the
    spread is the float difference of the lowest ask and the highest bid,
    each converted to a float first, rounded to four decimal places.  On a
    book with an empty side the computation raises IndexError. *)
Theorem spread_of_spec (b : lob) :
  (lob_asks b ≠ ∅ → lob_bids b ≠ ∅ →
     ∃ ask bid,
       lowest ask (lob_asks b) ∧ highest bid (lob_bids b) ∧
       spread_of b =
         Return (round (float_sub (float_of_Decimal ask)
                                  (float_of_Decimal bid)) 4)) ∧
  (lob_asks b = ∅ ∨ lob_bids b = ∅ → spread_of b = Raise IndexError).
Proof.
  unfold spread_of. split.
  - intros Ha Hb.
    destruct (first_key_sorted false _ Ha) as (ask & Hfa & Hask).
    destruct (first_key_sorted true _ Hb) as (bid & Hfb & Hbid).
    exists ask, bid. by rewrite Hfa, Hfb.
  - intros [->| ->].
    + by rewrite first_key_sorted_empty.
    + rewrite first_key_sorted_empty.
      by destruct (sorted false _).
Qed.

Lemma spread_of_spec_witness :
  let b := Lob {[ scale10 995 (-1) := scale10 4 0 ]}
               {[ scale10 102 0 := scale10 1 0; scale10 1035 (-1) := scale10 2 0 ]} in
  ∃ ask bid,
    lowest ask (lob_asks b) ∧ highest bid (lob_bids b) ∧
    spread_of b =
      Return (round (float_sub (float_of_Decimal ask) (float_of_Decimal bid)) 4).
Proof.
  intros b. destruct (spread_of_spec b) as [H _].
  apply H; compute_done.
Defined.

(** C8 as stated does not hold: with an empty side the computation raises
    instead of returning an absent result, and the number it returns
    otherwise is not the difference of the two prices when the prices
    differ beyond the fourth decimal place. *)
Lemma spread_of_empty_side_raises :
  spread_of (Lob {[ scale10 100 0 := scale10 2 0 ]} ∅) = Raise IndexError ∧
  (spread_of (Lob {[ scale10 1234 (-8) := scale10 1 0 ]}
                  {[ scale10 1235 (-8) := scale10 1 0 ]}) =
     Return (S754_zero false) ∧
   (scale10 1235 (-8) - scale10 1234 (-8))%Qc ≠ scale10 0 0).
Proof. split_and!; compute_done. Qed.

(** *** The scenario of the specification *)


(** *** No level without quantity *)

Lemma positive_store w perp symbol sd book m :
  positive_books w → books perp w !! symbol = Some book →
  positive_levels m →
  positive_books (set_books perp (<[symbol := set_levels sd m book]>) w).
Proof.
  intros Hw Hb Hm perp' symbol' b sd' Hb'.
  destruct (decide (perp' = perp)) as [->|Hperp].
  - rewrite books_set_books in Hb'.
    destruct (decide (symbol' = symbol)) as [->|Hsym].
    + rewrite lookup_insert_eq in Hb'. injection Hb' as <-.
      destruct sd, sd'; simpl; try done.
      * apply (Hw perp symbol book Asks Hb).
      * apply (Hw perp symbol book Bids Hb).
    + rewrite lookup_insert_ne in Hb' by done. by apply (Hw perp symbol').
  - apply (Hw perp' symbol'). destruct perp, perp', w; simpl in *; done.
Qed.

Lemma positive_update_level m p q m' :
  positive_levels m → update_level m p q = Return m' → positive_levels m'.
Proof.
  intros Hm. rewrite update_level_returns. intros [= <-] p' q'.
  destruct (decide (0 < q)%Qc).
  - rewrite lookup_insert. destruct (decide _); [congruence|apply Hm].
  - rewrite lookup_delete. destruct (decide _); [done|apply Hm].
Qed.

Lemma keeps_positive_merge_levels perp symbol sd l :
  keeps positive_books (for_ l (merge_level perp symbol sd)).
Proof.
  apply keeps_for. intros x _. unfold merge_level.
  apply keeps_bind; [apply keeps_lift|intros pq].
  apply keeps_on_levels. intros w book m Hw Hb Hm.
  apply positive_store; [done|done|].
  eapply positive_update_level; [|done]. by apply (Hw perp symbol).
Qed.

Lemma keeps_positive_setitems perp symbol sd l :
  Forall (λ pq, (0 < pq.2)%Qc) l →
  keeps positive_books (for_ l (setitem perp symbol sd)).
Proof.
  intros Hl. apply keeps_for. intros pq Hpq.
  apply keeps_on_levels. intros w book m Hw Hb [= <-].
  apply positive_store; [done|done|].
  intros p q. rewrite lookup_insert. destruct (decide _).
  - intros [= <-]. rewrite Forall_forall in Hl. by apply Hl.
  - by apply (Hw perp symbol).
Qed.

Lemma keeps_positive_update_order_book api symbol updates :
  positive_snapshots api →
  keeps positive_books (update_order_book api symbol updates).
Proof.
  intros Hapi. unfold update_order_book.
  apply keeps_bind; [apply keeps_getbook|intros book].
  apply keeps_bind.
  - destruct (_ && _); [|apply keeps_ret].
    intros w Hw. unfold initialize, bind at 1.
    rewrite on_order_book_run.
    destruct (fetched _) as [ob|e] eqn:Hob; [|by destruct w].
    destruct (Hapi _ _ _ Hob) as [Hbids Hasks].
    apply keeps_bind; [by apply keeps_positive_setitems
                      |intros _; by apply keeps_positive_setitems|].
    by destruct w.
  - intros _. unfold merge_updates.
    repeat (apply keeps_bind;
            [first [apply keeps_lift|apply keeps_positive_merge_levels]
            |intros ?]).
    apply keeps_positive_merge_levels.
Qed.

Lemma exec_positive api callback a w :
  leaves_stream callback → positive_snapshots api →
  positive_books w → positive_books (exec api callback a w).
Proof.
  intros Hcb Hapi Hw.
  assert (∀ symbol w, positive_books w → ∀ perp,
            positive_books (set_books perp (<[symbol := Lob ∅ ∅]>) w)) as Hopen.
  { intros symbol w' Hw' perp perp' symbol' b sd Hb.
    destruct (decide (perp' = perp)) as [->|Hperp].
    - rewrite books_set_books in Hb.
      destruct (decide (symbol' = symbol)) as [->|Hsym].
      + rewrite lookup_insert_eq in Hb. injection Hb as <-.
        by destruct sd; intros p q.
      + rewrite lookup_insert_ne in Hb by done. by apply (Hw' perp symbol').
    - apply (Hw' perp' symbol'). destruct perp, perp', w'; simpl in *; done. }
  assert (∀ w w', _order_books w = _order_books w' →
            _order_books_perp w = _order_books_perp w' →
            positive_books w → positive_books w') as Hfields.
  { intros w1 w2 H1 H2 Hw1 perp symbol b sd Hb.
    apply (Hw1 perp symbol). destruct perp; simpl in *; congruence. }
  destruct a;
    try (apply (exec_quiet api callback Hcb positive_books);
         [intros ? ? ? ? _; by apply Hfields
         |intros; by apply keeps_positive_update_order_book
         |intros ? ?; by apply Hfields|done|done]).
  - apply (Hfields (set_books false (<[symbol := Lob ∅ ∅]>) w));
      [done|done|by apply Hopen].
  - apply (Hfields (set_books true (<[symbol := Lob ∅ ∅]>) w));
      [done|done|by apply Hopen].
  - unfold exec. rewrite close_run. by apply (Hfields w).
Qed.

(** C6. The exchange serving snapshots whose levels all have a positive
    quantity, no book of the stream object ever holds a level whose
    quantity is not positive, on either side, whatever the process did
    since the stream object was created: opening streams, storing
    snapshots, merging updates (also when an update raises half way),
    running the callback, closing. *)
Theorem books_stay_positive (api : rest_api) (callback : json → M unit)
    (trace : list action) :
  leaves_stream callback →
  positive_snapshots api →
  ∀ perp symbol book sd p q,
    books perp (exec_all api callback trace __init__) !! symbol = Some book →
    levels sd book !! p = Some q →
    (0 < q)%Qc ∧ ¬ (q <= 0)%Qc.
Proof.
  intros Hcb Hapi.
  assert (positive_books (exec_all api callback trace __init__)) as Hinv.
  { apply (exec_all_keeps api callback positive_books (λ _, True)).
    - intros a w _. by apply exec_positive.
    - by apply Forall_forall.
    - intros perp symbol b sd Hb. by destruct perp. }
  intros perp symbol book sd p q Hb Hq.
  pose proof (Hinv perp symbol book sd Hb p q Hq).
  split; [done|]. by apply Qclt_not_le.
Qed.

Lemma books_stay_positive_witness :
  let level p q := JArr [JStr p; JStr q] in
  let snapshot := JObj [("bids", JArr [level "100.0" "2"]);
                        ("asks", JArr [level "101.0" "3"])] in
  let api : rest_api := λ _ _, Response 200 (Text "" (Some snapshot)) in
  let delta := JObj [("E", JInt 1600000000000); ("s", JStr "BTCUSDT");
                     ("a", JArr [level "101.0" "0"; level "102.0" "1"]);
                     ("b", JArr [level "100.0" "0"; level "99.5" "4"])] in
  let trace := [Open "BTCUSDT"; Update "BTCUSDT" delta] in
  books false (exec_all api call_order_book trace __init__) !! "BTCUSDT" =
    Some (Lob {[ scale10 995 (-1) := scale10 4 0 ]}
              {[ scale10 102 0 := scale10 1 0 ]}) ∧
  (0 < scale10 4 0)%Qc ∧ ¬ (scale10 4 0 <= 0)%Qc.
Proof.
  intros level snapshot api delta trace.
  assert (books false (exec_all api call_order_book trace __init__) !! "BTCUSDT" =
    Some (Lob {[ scale10 995 (-1) := scale10 4 0 ]}
              {[ scale10 102 0 := scale10 1 0 ]})) as Hbook by compute_done.
  split; [exact Hbook|].
  apply (books_stay_positive api call_order_book trace
           call_order_book_leaves_stream) with (perp := false)
           (symbol := "BTCUSDT") (sd := Bids) (p := scale10 995 (-1))
           (book := Lob {[ scale10 995 (-1) := scale10 4 0 ]}
                        {[ scale10 102 0 := scale10 1 0 ]}).
  - intros n req ob Hob. vm_compute in Hob. injection Hob as <-.
    split; repeat constructor.
  - exact Hbook.
  - compute_done.
Defined.

(** *** Sessions that are already open *)

(** [run] on an id that is in the open set prints the warning and returns:
    nothing is connected to and the stream object is left as it is. *)
Lemma run_start_duplicate url id w :
  id ∈ _sockets w →
  run_start url id w =
    (log_stdout ("Warning: socket " ++ id ++ " already opened!")%string w,
     Ended (Return tt)).
Proof. intros Hid. unfold run_start. by rewrite decide_True. Qed.

Lemma exec_keeps_open api callback id a w :
  leaves_stream callback → a ≠ Close →
  id ∈ _sockets w → id ∈ _sockets (exec api callback a w).
Proof.
  intros Hcb Ha Hw.
  destruct a; try done;
    try (apply (exec_quiet api callback Hcb (λ w, id ∈ _sockets w));
         [by intros ? ? _ _ <-
         |intros; apply keeps_update_order_book; [by intros ? [] ? ?|done]
         |intros ? ? ?; simpl; set_solver|done|done]).
Qed.

Lemma run_received_body_tasks api callback id msg d w :
  leaves_stream callback → parsed msg = Some d →
  _tasks (run_received_body api callback id msg w).1 !! id = None.
Proof.
  intros Hcb Hd.
  unfold run_received_body, bind at 1, lift, json_loads. rewrite Hd.
  unfold bind at 1, del_task.
  destruct (_tasks w !! id) eqn:Hid; [|done].
  apply (keeps_bind (λ w, _tasks w !! id = None)).
  - destruct (find_is_0 id "depth"); [|apply keeps_ret].
    apply keeps_bind; [|intros data'].
    { destruct (find_is_0 id "depth_perp"); [apply keeps_lift|apply keeps_ret]. }
    apply keeps_bind; [apply keeps_lift|intros symbol].
    apply keeps_bind; [|intros _; apply keeps_ret].
    destruct symbol; try apply keeps_raise.
    apply keeps_update_order_book; [by intros ? [] ? ?|done].
  - intros data w' Hw'. destruct (Hcb data w') as (_ & _ & _ & -> & _). done.
  - simpl. apply lookup_delete_eq.
Qed.

(** C10, as the code has it.  A session whose receive task was pending and
    has delivered a message ends with an exception when the message or its
    processing fails.  Its id is then still in the open set.  When the
    message is not JSON the map of pending operations is as it was, the
    receive task of the session still recorded; when the message is JSON
    and a later statement raises (the book update, the callback), the map
    has no entry for the id any more.  In both cases, as long as [close]
    is not called, the id stays in the open set and every [run] started
    with it prints the warning and returns without connecting. *)
Theorem failed_session_stays_open (api : rest_api) (callback : json → M unit)
    (id : string) (t : nat) (msg : text) (w w' : world) (e : exn) :
  leaves_stream callback →
  id ∈ _sockets w →
  tasks w !! t = Some Pending →
  run_received api callback id t (Return msg) w = (w', Ended (Raise e)) →
  id ∈ _sockets w' ∧
  (parsed msg = None → e = JSONDecodeError (raw msg) ∧ _tasks w' = _tasks w) ∧
  (parsed msg ≠ None → _tasks w' !! id = None) ∧
  ∀ trace, Forall (λ a, a ≠ Close) trace →
    let w'' := exec_all api callback trace w' in
    id ∈ _sockets w'' ∧
    ∀ url, run_start url id w'' =
             (log_stdout ("Warning: socket " ++ id ++ " already opened!")%string w'',
              Ended (Return tt)).
Proof.
  intros Hcb Hid Ht Hrun.
  assert (id ∈ _sockets w') as Hid'.
  { change w' with (w', Ended (Raise e)).1. rewrite <-Hrun.
    apply (exec_keeps_open api callback id (Received id t (Return msg)) w);
      done. }
  unfold run_received in Hrun. rewrite Ht in Hrun.
  split_and!; [done| | |].
  - intros Hp. unfold run_received_body, bind at 1, lift, json_loads in Hrun.
    rewrite Hp in Hrun. by injection Hrun as <- <-.
  - intros Hp. destruct (parsed msg) as [d|] eqn:Hd; [|done].
    pose proof (run_received_body_tasks api callback id msg d
                  (set_tasks (<[t := Finished]>) w) Hcb Hd) as Htasks.
    destruct (run_received_body _ _ _ _ _) as [w1 [[]|e1]]; [done|].
    by injection Hrun as <- <-.
  - intros trace Htrace w''.
    assert (id ∈ _sockets w'') as Hopen.
    { apply (exec_all_keeps api callback (λ w, id ∈ _sockets w)
               (λ a, a ≠ Close)); [|done|done].
      intros a w0. by apply exec_keeps_open. }
    split; [done|]. intros url. by apply run_start_duplicate.
Qed.

Lemma failed_session_stays_open_witness :
  let api : rest_api := λ _ _, Response 500 (Text "" None) in
  let url := "wss://stream.binance.com:9443/ws/btcusdt@depth" in
  let id := "depth_btcusdt" in
  let w := exec_all api call_order_book
             [Open "BTCUSDT"; Start url id; Connected id] __init__ in
  let w' := set_tasks (<[0%nat := Finished]>) w in
  let w'' := exec_all api call_order_book [Open "BTCUSDT"; Start url id] w' in
  _tasks w' !! id = Some 0%nat ∧
  id ∈ _sockets w'' ∧
  run_start url id w'' =
    (log_stdout "Warning: socket depth_btcusdt already opened!" w'',
     Ended (Return tt)).
Proof.
  intros api url id w w' w''.
  destruct (failed_session_stays_open api call_order_book id 0
              (Text "not json" None) w w' (JSONDecodeError "not json"))
    as (_ & Hparse & _ & Hlater).
  - exact call_order_book_leaves_stream.
  - compute_done.
  - reflexivity.
  - reflexivity.
  - destruct (Hparse eq_refl) as [_ Htasks].
    destruct (Hlater [Open "BTCUSDT"; Start url id]) as [Hopen Hstart].
    { repeat constructor; discriminate. }
    split_and!; [rewrite Htasks; compute_done|exact Hopen|exact (Hstart url)].
Defined.

(** C10 as stated does not hold: when the message is JSON and the book
    update raises (here on an update without the member [a], after the
    snapshot was stored), the receive task of the session is no longer
    recorded in the map of pending operations. *)
Lemma failed_update_forgets_task :
  let level p q := JArr [JStr p; JStr q] in
  let snapshot := JObj [("bids", JArr [level "100.0" "2"]);
                        ("asks", JArr [level "101.0" "3"])] in
  let api : rest_api := λ _ _, Response 200 (Text "" (Some snapshot)) in
  let id := "depth_btcusdt" in
  let w := exec_all api call_order_book
             [Open "BTCUSDT";
              Start "wss://stream.binance.com:9443/ws/btcusdt@depth" id;
              Connected id] __init__ in
  let data := JObj [("E", JInt 1600000000000); ("s", JStr "BTCUSDT")] in
  let after := run_received api call_order_book id 0
                 (Return (Text "" (Some data))) w in
  _tasks w !! id = Some 0%nat ∧
  tasks w !! 0%nat = Some Pending ∧
  (update_order_book api "BTCUSDT" data w).2 = Raise KeyError ∧
  after.2 = Ended (Raise KeyError) ∧
  id ∈ _sockets after.1 ∧
  _tasks after.1 !! id = None.
Proof. split_and!; compute_done. Qed.

(** *** Opening a stream twice *)

Lemma open_stream_order_book_resets symbol w :
  _order_books (open_stream_order_book symbol w).1 !! symbol = Some (Lob ∅ ∅).
Proof. simpl. apply lookup_insert_eq. Qed.

(** C3 fails on the code.  A session for BTCUSDT is open and its book
    holds bids = {99.5: 4}, asks = {102.0: 1}.  Opening the stream of
    BTCUSDT again schedules a [run] that prints the warning and returns
    without connecting, but [open_stream_order_book] has by then replaced
    the book of the open session by an empty one. *)
Theorem duplicate_open_resets_book :
  let level p q := JArr [JStr p; JStr q] in
  let snapshot := JObj [("bids", JArr [level "100.0" "2"]);
                        ("asks", JArr [level "101.0" "3"])] in
  let api : rest_api := λ _ _, Response 200 (Text "" (Some snapshot)) in
  let delta := JObj [("E", JInt 1600000000000); ("s", JStr "BTCUSDT");
                     ("a", JArr [level "101.0" "0"; level "102.0" "1"]);
                     ("b", JArr [level "100.0" "0"; level "99.5" "4"])] in
  let url := "wss://stream.binance.com:9443/ws/btcusdt@depth" in
  let id := "depth_btcusdt" in
  let w := exec_all api call_order_book
             [Open "BTCUSDT"; Start url id; Connected id;
              Received id 0 (Return (Text "" (Some delta))); Woken id]
             __init__ in
  let w1 := (open_stream_order_book "BTCUSDT" w).1 in
  id ∈ _sockets w ∧
  _order_books w !! "BTCUSDT" =
    Some (Lob {[ scale10 995 (-1) := scale10 4 0 ]}
              {[ scale10 102 0 := scale10 1 0 ]}) ∧
  scheduled w1 = scheduled w ++ [(url, id)] ∧
  run_start url id w1 =
    (log_stdout "Warning: socket depth_btcusdt already opened!" w1,
     Ended (Return tt)) ∧
  connections (run_start url id w1).1 = connections w ∧
  _order_books w1 !! "BTCUSDT" = Some (Lob ∅ ∅).
Proof. split_and!; compute_done. Qed.

(** ** Further properties of the code *)
Import Monitor.

(** *** What one update does to a book *)

Lemma merge_levels_run perp symbol sd xs l w book :
  books perp w !! symbol = Some book →
  levels_of xs = Return l →
  for_ xs (merge_level perp symbol sd) w =
    (set_books perp
       (<[symbol := set_levels sd (merged l (levels sd book)) book]>) w,
     Return tt).
Proof.
  revert l w book. induction xs as [|x xs IH]; intros l w book Hb Hl; simpl in *.
  - injection Hl as <-. unfold ret. f_equal. symmetry. apply set_books_id.
    simpl. rewrite set_levels_id. by apply insert_id.
  - destruct (level_of x) as [[p q]|e] eqn:Hx; [|done]. simpl in Hl.
    destruct (levels_of xs) as [l'|e] eqn:Hxs; [|done]. injection Hl as <-.
    unfold bind. rewrite (merge_level_run perp symbol sd x p q w book Hb Hx).
    erewrite IH; [|by rewrite books_set_books, lookup_insert_eq|done].
    rewrite set_books_set_books, levels_set_levels, set_levels_set_levels.
    f_equal. destruct perp, w; simpl; f_equal; apply insert_insert_eq.
Qed.


Lemma merged_snoc l pq m :
  merged (l ++ [pq]) m =
    if decide (0 < pq.2)%Qc then <[pq.1 := pq.2]> (merged l m)
    else delete pq.1 (merged l m).
Proof. unfold merged. by rewrite foldl_app. Qed.

Lemma last_for_snoc p l pq :
  last_for p (l ++ [pq]) = if decide (pq.1 = p) then Some pq.2 else last_for p l.
Proof. unfold last_for. by rewrite foldl_app. Qed.

Lemma merged_lookup l m p :
  merged l m !! p =
    match last_for p l with
    | Some q => if decide (0 < q)%Qc then Some q else None
    | None => m !! p
    end.
Proof.
  induction l as [|pq l IH] using rev_ind; [done|].
  rewrite merged_snoc, last_for_snoc.
  destruct (decide (pq.1 = p)) as [<-|Hne].
  - destruct (decide (0 < pq.2)%Qc).
    + apply lookup_insert_eq.
    + apply lookup_delete_eq.
  - destruct (decide (0 < pq.2)%Qc).
    + by rewrite lookup_insert_ne.
    + by rewrite lookup_delete_ne.
Qed.

Lemma nonempty_book_flag (book : lob) :
  lob_asks book ≠ ∅ ∨ lob_bids book ≠ ∅ →
  (len (lob_asks book) =? 0)%nat && (len (lob_bids book) =? 0)%nat = false.
Proof.
  intros Hne. apply andb_false_iff.
  destruct Hne as [Hne|Hne]; [left|right];
    apply not_true_is_false; by rewrite len_0.
Qed.

(** X1. An update whose entries all convert, on a book that holds a level,
    returns and changes nothing but the two sides of that book: each side
    is the old one with the entries of the update merged in their order,
    so that the quantity of the last entry for a price decides whether the
    price is a level afterwards and with which quantity, and a price the
    update does not mention is as it was. *)
Theorem update_order_book_merges (api : rest_api) (symbol : string)
    (updates a b : json) (xs ys : list json) (la lb : list (Decimal * Decimal))
    (w : world) (book : lob) :
  let perp := has_underscore symbol in
  books perp w !! symbol = Some book →
  lob_asks book ≠ ∅ ∨ lob_bids book ≠ ∅ →
  getitem updates "a" = Return a → iter a = Return xs →
  levels_of xs = Return la →
  getitem updates "b" = Return b → iter b = Return ys →
  levels_of ys = Return lb →
  let final := (update_order_book api symbol updates w).1 in
  update_order_book api symbol updates w =
    (set_books perp
       (<[symbol := Lob (merged lb (lob_bids book))
                        (merged la (lob_asks book))]>) w,
     Return tt) ∧
  ∃ book',
    books perp final !! symbol = Some book' ∧
    (∀ p, lob_asks book' !! p =
            match last_for p la with
            | Some q => if decide (0 < q)%Qc then Some q else None
            | None => lob_asks book !! p
            end) ∧
    (∀ p, lob_bids book' !! p =
            match last_for p lb with
            | Some q => if decide (0 < q)%Qc then Some q else None
            | None => lob_bids book !! p
            end).
Proof.
  intros perp Hb Hne Ha Hxs Hla Hbk Hys Hlb final.
  assert (update_order_book api symbol updates w =
    (set_books perp
       (<[symbol := Lob (merged lb (lob_bids book))
                        (merged la (lob_asks book))]>) w,
     Return tt)) as Hrun.
  { rewrite (update_order_book_run api symbol updates w book Hb). fold perp.
    rewrite nonempty_book_flag by done.
    unfold merge_updates, bind, lift. rewrite Ha, Hbk, Hxs.
    rewrite (merge_levels_run perp symbol Asks xs la w book Hb Hla).
    rewrite Hys.
    erewrite merge_levels_run;
      [|by rewrite books_set_books, lookup_insert_eq|done].
    rewrite set_books_set_books. simpl.
    f_equal. destruct perp, w; simpl; f_equal; apply insert_insert_eq. }
  split; [exact Hrun|].
  eexists. unfold final. rewrite Hrun. simpl.
  rewrite books_set_books, lookup_insert_eq.
  split_and!; [done| |]; intros p; simpl; apply merged_lookup.
Qed.

Lemma update_order_book_merges_witness :
  let level p q := JArr [JStr p; JStr q] in
  let updates := JObj [("a", JArr [level "101.0" "5"; level "101.0" "0"]);
                       ("b", JArr [level "100.0" "7"])] in
  let book := Lob {[ scale10 100 0 := scale10 2 0 ]}
                  {[ scale10 101 0 := scale10 3 0 ]} in
  let w := set_books false (<["BTCUSDT" := book]>) __init__ in
  ∃ book',
    _order_books (update_order_book (λ _ _, Response 500 (Text "" None))
                    "BTCUSDT" updates w).1 !! "BTCUSDT" = Some book' ∧
    lob_asks book' !! scale10 101 0 = None ∧
    lob_bids book' !! scale10 100 0 = Some (scale10 7 0).
Proof.
  intros level updates book w.
  destruct (update_order_book_merges (λ _ _, Response 500 (Text "" None))
              "BTCUSDT" updates
              (JArr [level "101.0" "5"; level "101.0" "0"])
              (JArr [level "100.0" "7"])
              [level "101.0" "5"; level "101.0" "0"] [level "100.0" "7"]
              [(scale10 101 0, scale10 5 0); (scale10 101 0, scale10 0 0)]
              [(scale10 100 0, scale10 7 0)] w book)
    as (_ & book' & Hb' & Hasks & Hbids);
    [compute_done|left; compute_done|reflexivity|reflexivity|compute_done
    |reflexivity|reflexivity|compute_done|].
  exists book'. split; [exact Hb'|]. split.
  - rewrite Hasks. compute_done.
  - rewrite Hbids. compute_done.
Defined.



(** *** What an update leaves alone *)

Section keeps_at.
(** [P] allows the book of one symbol to be replaced. *)
Context (P : world → Prop) (perp : bool) (symbol : string).
Hypothesis P_book : ∀ w b, P w → P (set_books perp (<[symbol := b]>) w).

Lemma keeps_on_levels_at sd f : keeps P (on_levels perp symbol sd f).
Proof. apply keeps_on_levels. intros w book m Hw _ _. by apply P_book. Qed.

Lemma keeps_merge_updates_at updates :
  keeps P (merge_updates perp symbol updates).
Proof.
  assert (∀ sd l, keeps P (for_ l (merge_level perp symbol sd))) as Hloop.
  { intros sd l. apply keeps_for; intros ? _; apply keeps_bind;
      [apply keeps_lift|intros ?; apply keeps_on_levels_at]. }
  unfold merge_updates.
  repeat (apply keeps_bind; [first [apply keeps_lift|apply Hloop]|intros ?]).
  apply Hloop.
Qed.

Hypothesis P_request : ∀ w r, P w → P (log_request r w).

Lemma keeps_initialize_at api : keeps P (initialize api perp symbol).
Proof.
  unfold initialize.
  apply keeps_bind; [|intros ob].
  { intros w Hw. unfold on_order_book, urlopen.
    destruct (_ && _); simpl; by apply P_request. }
  apply keeps_bind; [|intros _];
    apply keeps_for; intros ? _; apply keeps_on_levels_at.
Qed.
End keeps_at.

Lemma keeps_update_order_book_at (P : world → Prop) api symbol updates :
  (∀ w b, P w → P (set_books (has_underscore symbol) (<[symbol := b]>) w)) →
  (∀ w r, P w → P (log_request r w)) →
  keeps P (update_order_book api symbol updates).
Proof.
  intros Hbook Hreq. unfold update_order_book.
  apply keeps_bind; [apply keeps_getbook|intros book].
  apply keeps_bind; [|intros _; by apply keeps_merge_updates_at].
  destruct (_ && _); [by apply keeps_initialize_at|apply keeps_ret].
Qed.

(** X3. Whatever the update is and however it ends, [update_order_book]
    for a symbol leaves the book of every other symbol, and the book the
    symbol has in the other of the two dictionaries, as they are; it
    changes neither the open set nor the pending operations nor any task,
    connects to nothing, schedules nothing, prints nothing, hands nothing
    to redis, and issues at most the one snapshot request for the symbol. *)
Theorem update_order_book_frame (api : rest_api) (symbol : string)
    (updates : json) (w : world) :
  let w' := (update_order_book api symbol updates w).1 in
  (∀ perp' symbol',
     (perp', symbol') ≠ (has_underscore symbol, symbol) →
     books perp' w' !! symbol' = books perp' w !! symbol') ∧
  _sockets w' = _sockets w ∧ _tasks w' = _tasks w ∧ tasks w' = tasks w ∧
  connections w' = connections w ∧ scheduled w' = scheduled w ∧
  stdout w' = stdout w ∧ redis w' = redis w ∧
  (requests w' = requests w ∨
   requests w' = requests w ++ [request_for symbol]).
Proof.
  intros w'.
  assert (∀ A (f : world → A),
            (∀ w0 b, f (set_books (has_underscore symbol) (<[symbol := b]>) w0)
                     = f w0) →
            (∀ w0 r, f (log_request r w0) = f w0) →
            f w' = f w) as Hfield.
  { intros A f Hb Hr.
    apply (keeps_update_order_book_at (λ w0, f w0 = f w)); [| |done].
    - intros w0 b <-. apply Hb.
    - intros w0 r <-. apply Hr. }
  split_and!.
  - intros perp' symbol' Hne.
    apply (keeps_update_order_book_at
             (λ w0, books perp' w0 !! symbol' = books perp' w !! symbol'));
      [| |done].
    + intros w0 b <-.
      destruct (decide (perp' = has_underscore symbol)) as [->|Hp].
      * rewrite books_set_books. apply lookup_insert_ne. congruence.
      * by destruct perp', (has_underscore symbol), w0.
    + intros w0 r <-. by destruct perp'.
  - apply (Hfield _ _sockets); [by intros ? ?; destruct (has_underscore symbol)|done].
  - apply (Hfield _ _tasks); [by intros ? ?; destruct (has_underscore symbol)|done].
  - apply (Hfield _ tasks); [by intros ? ?; destruct (has_underscore symbol)|done].
  - apply (Hfield _ connections); [by intros ? ?; destruct (has_underscore symbol)|done].
  - apply (Hfield _ scheduled); [by intros ? ?; destruct (has_underscore symbol)|done].
  - apply (Hfield _ stdout); [by intros ? ?; destruct (has_underscore symbol)|done].
  - apply (Hfield _ redis); [by intros ? ?; destruct (has_underscore symbol)|done].
  - unfold w'.
    destruct (books (has_underscore symbol) w !! symbol) as [book|] eqn:Hb.
    + rewrite (update_order_book_run api symbol updates w book Hb).
      destruct (_ && _); [|left; apply merge_updates_requests].
      unfold bind.
      pose proof (initialize_requests api (has_underscore symbol) symbol w) as Hi.
      destruct (initialize _ _ _ w) as [w1 [[]|e]]; cbn [fst] in Hi |- *;
        [|right; exact Hi].
      right. rewrite merge_updates_requests. exact Hi.
    + left. unfold update_order_book, bind, getbook. by rewrite Hb.
Qed.

Lemma update_order_book_frame_witness :
  let level p q := JArr [JStr p; JStr q] in
  let updates := JObj [("a", JArr [level "101.0" "0"]); ("b", JArr [])] in
  let book := Lob {[ scale10 100 0 := scale10 2 0 ]}
                  {[ scale10 101 0 := scale10 3 0 ]} in
  let w := set_books false (<["ETHUSDT" := book]>)
             (set_books false (<["BTCUSDT" := book]>) __init__) in
  books false (update_order_book (λ _ _, Response 500 (Text "" None))
                 "BTCUSDT" updates w).1 !! "ETHUSDT" = Some book.
Proof.
  intros level updates book w.
  destruct (update_order_book_frame (λ _ _, Response 500 (Text "" None))
              "BTCUSDT" updates w) as [Hother _].
  rewrite (Hother false "ETHUSDT"); [compute_done|discriminate].
Defined.

(** *** The snapshot in the book *)

Lemma snapshot_levels_snoc l pq m :
  snapshot_levels (l ++ [pq]) m = <[pq.1 := pq.2]> (snapshot_levels l m).
Proof. unfold snapshot_levels. by rewrite foldl_app. Qed.

Lemma snapshot_levels_lookup l m p :
  snapshot_levels l m !! p =
    match last_for p l with Some q => Some q | None => m !! p end.
Proof.
  induction l as [|pq l IH] using rev_ind; [done|].
  rewrite snapshot_levels_snoc, last_for_snoc.
  destruct (decide (pq.1 = p)) as [<-|Hne].
  - apply lookup_insert_eq.
  - by rewrite lookup_insert_ne.
Qed.

(** X4. When the snapshot is served for an empty book, the book holds
    afterwards, on each side, exactly the prices of that side of the
    snapshot, each with the quantity of its last entry there, whatever
    this quantity is: a snapshot level is stored also when its quantity is
    zero or negative, and of two entries for one price the later wins. *)
Theorem initialize_stores_snapshot (api : rest_api) (perp : bool)
    (symbol : string) (w : world) (ob : OrderBook) :
  books perp w !! symbol = Some (Lob ∅ ∅) →
  fetched (api (length (requests w)) (request_for symbol)) = Return ob →
  (initialize api perp symbol w).2 = Return tt ∧
  ∃ book',
    books perp (initialize api perp symbol w).1 !! symbol = Some book' ∧
    (∀ p, lob_asks book' !! p = last_for p (asks ob)) ∧
    (∀ p, lob_bids book' !! p = last_for p (bids ob)).
Proof.
  intros Hb Hob. rewrite (initialize_run api perp symbol w ob Hb Hob).
  split; [done|]. eexists. simpl.
  rewrite books_set_books, lookup_insert_eq.
  split_and!; [done| |]; intros p; simpl;
    rewrite snapshot_levels_lookup; by destruct (last_for _ _).
Qed.

Lemma initialize_stores_snapshot_witness :
  let level p q := JArr [JStr p; JStr q] in
  let snapshot := JObj [("bids", JArr [level "100.0" "2"; level "100.0" "0"]);
                        ("asks", JArr [level "101.0" "3"])] in
  let api : rest_api := λ _ _, Response 200 (Text "" (Some snapshot)) in
  let w := (open_stream_order_book "BTCUSDT" __init__).1 in
  ∃ book',
    books false (initialize api false "BTCUSDT" w).1 !! "BTCUSDT" = Some book' ∧
    lob_bids book' !! scale10 100 0 = Some (scale10 0 0) ∧
    lob_asks book' !! scale10 101 0 = Some (scale10 3 0).
Proof.
  intros level snapshot api w.
  destruct (initialize_stores_snapshot api false "BTCUSDT" w
              (mkOrderBook [(scale10 100 0, scale10 2 0);
                            (scale10 100 0, scale10 0 0)]
                           [(scale10 101 0, scale10 3 0)]))
    as (_ & book' & Hb' & Hasks & Hbids); [compute_done|compute_done|].
  exists book'. split; [exact Hb'|]. split.
  - rewrite Hbids. compute_done.
  - rewrite Hasks. compute_done.
Defined.

(** *** Opening the streams *)

Lemma open_stream_opened pair w :
  (if has_underscore pair then open_stream_order_book_perp pair
   else open_stream_order_book pair) w = (opened pair w, Return tt).
Proof. unfold opened, session_of. by destruct (has_underscore pair). Qed.

Lemma run_unfold pairs w :
  run pairs w = (foldl (λ w pair, opened pair w) w pairs, Return tt).
Proof.
  unfold run. revert w. induction pairs as [|pair pairs IH]; intros w; [done|].
  cbn [for_ foldl]. unfold bind at 1. rewrite open_stream_opened. apply IH.
Qed.

Lemma opened_all_books pairs w perp s :
  books perp (foldl (λ w pair, opened pair w) w pairs) !! s =
    if decide (s ∈ pairs ∧ has_underscore s = perp)
    then Some (Lob ∅ ∅) else books perp w !! s.
Proof.
  revert w. induction pairs as [|pair pairs IH] using rev_ind; intros w.
  - rewrite decide_False; [done|]. intros [Hin _]. by apply not_elem_of_nil in Hin.
  - rewrite foldl_app. simpl.
    assert (books perp (opened pair (foldl (λ w pair, opened pair w) w pairs)) !! s
            = if decide (s = pair ∧ has_underscore s = perp)
              then Some (Lob ∅ ∅)
              else books perp (foldl (λ w pair, opened pair w) w pairs) !! s)
      as ->.
    { unfold opened.
      generalize (foldl (λ w pair, opened pair w) w pairs). intros w0.
      destruct (decide (s = pair ∧ has_underscore s = perp)) as [[-> <-]|Hne].
      - destruct (has_underscore pair); simpl; apply lookup_insert_eq.
      - destruct (decide (has_underscore pair = perp)) as [<-|Hp].
        + destruct (has_underscore pair) eqn:Hu; simpl;
            (rewrite lookup_insert_ne; [done|]); intros ->; apply Hne; by rewrite Hu.
        + by destruct (has_underscore pair), perp, w0. }
    rewrite IH.
    destruct (decide (s = pair ∧ has_underscore s = perp)) as [[-> <-]|Hne].
    + rewrite decide_True; [done|]. split; [|done]. apply elem_of_app. right. by left.
    + destruct (decide (s ∈ pairs ∧ has_underscore s = perp)) as [[Hin Hu]|Hno].
      * rewrite decide_True; [done|]. split; [|done]. apply elem_of_app. by left.
      * rewrite decide_False; [done|]. intros [Hin Hu].
        apply elem_of_app in Hin as [Hin|Hin]; [by apply Hno|].
        apply list_elem_of_singleton in Hin. by apply Hne.
Qed.

Lemma opened_all_fields pairs w :
  let w' := foldl (λ w pair, opened pair w) w pairs in
  scheduled w' = scheduled w ++ (session_of <$> pairs) ∧
  _sockets w' = _sockets w ∧ requests w' = requests w ∧
  connections w' = connections w ∧ stdout w' = stdout w.
Proof.
  revert w. induction pairs as [|pair pairs IH]; intros w; simpl.
  - by rewrite app_nil_r.
  - destruct (IH (opened pair w)) as (H1 & H2 & H3 & H4 & H5).
    rewrite H1, H2, H3, H4, H5. unfold opened.
    destruct (session_of pair) as [url id].
    destruct (has_underscore pair); simpl; by rewrite <-app_assoc.
Qed.

(** X5. After [run(pairs)] has opened the streams, every pair of the
    list has an empty book in the dictionary in which [update_order_book]
    and the callback look it up (the one for perpetuals exactly when the
    pair has an underscore), one [run] coroutine per entry of the list is
    scheduled in the order of the list, and the first update for a pair
    finds the book and issues the snapshot request for it. *)
Theorem run_opens_every_pair (api : rest_api) (pairs : list string)
    (pair : string) (updates : json) :
  pair ∈ pairs →
  let w := (run pairs __init__).1 in
  getbook (has_underscore pair) pair w = (w, Return (Lob ∅ ∅)) ∧
  scheduled w = session_of <$> pairs ∧
  requests (update_order_book api pair updates w).1 = [request_for pair].
Proof.
  intros Hin w. unfold w. rewrite run_unfold. simpl.
  set (w0 := foldl (λ w pair, opened pair w) __init__ pairs).
  assert (books (has_underscore pair) w0 !! pair = Some (Lob ∅ ∅)) as Hb.
  { unfold w0. rewrite opened_all_books. by rewrite decide_True. }
  destruct (opened_all_fields pairs __init__) as (Hs & _ & Hr & _). fold w0 in Hs, Hr.
  split_and!.
  - unfold getbook. by rewrite Hb.
  - by rewrite Hs.
  - rewrite (update_order_book_run api pair updates w0 _ Hb).
    cbn [lob_asks lob_bids]. rewrite (proj2 (len_0 ∅) eq_refl). cbn [andb].
    unfold bind.
    pose proof (initialize_requests api (has_underscore pair) pair w0) as Hi.
    destruct (initialize _ _ _ w0) as [w1 [[]|e]]; cbn [fst] in Hi |- *.
    + rewrite merge_updates_requests, Hi. by rewrite Hr.
    + rewrite Hi. by rewrite Hr.
Qed.

Lemma run_opens_every_pair_witness :
  let w := (run ["BTCUSDT"; "BTCUSD_PERP"] __init__).1 in
  getbook true "BTCUSD_PERP" w = (w, Return (Lob ∅ ∅)) ∧
  scheduled w =
    [("wss://stream.binance.com:9443/ws/btcusdt@depth", "depth_btcusdt");
     ("wss://dstream.binance.com/stream?streams=btcusd_perp@depth",
      "depth_perp_btcusd_perp")].
Proof.
  intros w.
  destruct (run_opens_every_pair (λ _ _, Response 500 (Text "" None))
              ["BTCUSDT"; "BTCUSD_PERP"] "BTCUSD_PERP" JNull)
    as (Hbook & Hsched & _).
  - right. left.
  - split; [exact Hbook|exact Hsched].
Defined.

(** X6. The two methods that open a stream store the empty book in their
    own dictionary whatever the symbol is, while [update_order_book]
    chooses the dictionary by the underscore in the symbol.  A symbol with
    an underscore opened with [open_stream_order_book], or one without
    opened with [open_stream_order_book_perp], therefore has no book where
    its updates look for it, and unless the other dictionary happens to
    hold one, every update for it raises KeyError and changes nothing. *)
Theorem open_stream_of_the_other_kind (api : rest_api) (symbol : string)
    (updates : json) (w : world) :
  (has_underscore symbol = true → _order_books_perp w !! symbol = None →
   let w' := (open_stream_order_book symbol w).1 in
   update_order_book api symbol updates w' = (w', Raise KeyError)) ∧
  (has_underscore symbol = false → _order_books w !! symbol = None →
   let w' := (open_stream_order_book_perp symbol w).1 in
   update_order_book api symbol updates w' = (w', Raise KeyError)).
Proof.
  split; intros Hu Hb w'; unfold update_order_book, bind, getbook;
    rewrite Hu; simpl; by rewrite Hb.
Qed.

Lemma open_stream_of_the_other_kind_witness :
  let w' := (open_stream_order_book "BTCUSD_PERP" __init__).1 in
  update_order_book (λ _ _, Response 500 (Text "" None)) "BTCUSD_PERP"
    (JObj []) w' = (w', Raise KeyError).
Proof.
  destruct (open_stream_of_the_other_kind (λ _ _, Response 500 (Text "" None))
              "BTCUSD_PERP" (JObj []) __init__) as [H _].
  apply H; reflexivity.
Defined.

(** *** Starting the sessions *)

Lemma run_start_fresh url id w :
  id ∉ _sockets w →
  run_start url id w =
    (log_connection url (log_stdout ("Starting stream: " ++ url)%string w),
     Connecting).
Proof. intros Hid. unfold run_start. by rewrite decide_False. Qed.

Lemma start_all_run sessions w :
  _sockets w = ∅ →
  _sockets (start_all sessions w) = ∅ ∧
  connections (start_all sessions w) = connections w ++ sessions.*1 ∧
  stdout (start_all sessions w) =
    stdout w ++ ((λ ui, "Starting stream: " ++ ui.1)%string <$> sessions).
Proof.
  unfold start_all. revert w.
  induction sessions as [|[url id] sessions IH]; intros w Hw.
  - simpl. by rewrite !app_nil_r.
  - cbn [foldl fst snd]. rewrite run_start_fresh by (rewrite Hw; set_solver).
    cbn [fst].
    destruct (IH (log_connection url
                    (log_stdout ("Starting stream: " ++ url)%string w)) Hw)
      as (H1 & H2 & H3).
    rewrite H1, H2, H3. simpl. by rewrite <-!app_assoc.
Qed.

(** X7. The check for duplicates does not act when the process starts.
    The coroutines that [run(pairs)] scheduled all run to
    [websockets.connect] before any of them has its connection, hence
    before any id is in the open set: each of them prints that it starts
    and connects, one connection per entry of the list, also for a pair
    that is listed twice, and no warning is printed. *)
Theorem every_scheduled_run_connects (pairs : list string) :
  let w := (run pairs __init__).1 in
  let w' := start_all (scheduled w) w in
  connections w' = (session_of <$> pairs).*1 ∧
  length (connections w') = length pairs ∧
  stdout w' =
    (λ ui, "Starting stream: " ++ ui.1)%string <$> (session_of <$> pairs) ∧
  _sockets w' = ∅.
Proof.
  intros w w'. unfold w', w. rewrite run_unfold. cbn [fst].
  destruct (opened_all_fields pairs __init__) as (Hs & Hk & _ & Hc & Ho).
  set (w0 := foldl (λ w pair, opened pair w) __init__ pairs) in *.
  destruct (start_all_run (scheduled w0) w0 Hk) as (H1 & H2 & H3).
  rewrite H1, H2, H3, Hs, Hc, Ho. simpl.
  split_and!; try done. by rewrite !length_fmap.
Qed.

Lemma close_tasks w :
  tasks (close w).1 =
    foldl (λ ts kt, cancel kt.2 ts) (tasks w) (map_to_list (_tasks w)).
Proof. by rewrite close_run. Qed.

Lemma run_connected_run id w :
  run_connected id w =
    (set_tasks_map (<[id := length (tasks w)]>)
       (set_tasks (λ ts, ts ++ [Pending])
          (set_sockets (λ s, {[id]} ∪ s) w)),
     Receiving (length (tasks w))).
Proof.
  unfold run_connected, run_loop.
  rewrite decide_True; [done|]. destruct w; simpl. set_solver.
Qed.

(** X8. Two [run] coroutines with the same id that both pass the check
    before either is connected both go on: both connect and both enter
    the loop.  The receive task of the second replaces the one of the
    first in the map of pending operations, so that [close] cancels the
    second and leaves the first pending. *)
Theorem same_id_started_twice (url id : string) (w : world) :
  id ∉ _sockets w →
  (∀ id' t, _tasks w !! id' = Some t → (t < length (tasks w))%nat) →
  let n := length (tasks w) in
  let w1 := (run_start url id w).1 in
  let w2 := (run_start url id w1).1 in
  let w3 := (run_connected id w2).1 in
  let w4 := (run_connected id w3).1 in
  (run_start url id w).2 = Connecting ∧
  (run_start url id w1).2 = Connecting ∧
  connections w2 = connections w ++ [url; url] ∧
  (run_connected id w2).2 = Receiving n ∧
  (run_connected id w3).2 = Receiving (S n) ∧
  tasks w4 = tasks w ++ [Pending; Pending] ∧
  _tasks w4 !! id = Some (S n) ∧
  tasks (close w4).1 !! S n = Some Cancelled ∧
  tasks (close w4).1 !! n = Some Pending.
Proof.
  intros Hid Hrec n w1 w2 w3 w4.
  assert (w1 = log_connection url
                 (log_stdout ("Starting stream: " ++ url)%string w)) as Hw1.
  { unfold w1. by rewrite run_start_fresh. }
  assert (w2 = log_connection url
                 (log_stdout ("Starting stream: " ++ url)%string w1)) as Hw2.
  { unfold w2. rewrite run_start_fresh; [done|]. by rewrite Hw1. }
  assert (tasks w2 = tasks w ∧ _tasks w2 = _tasks w) as [Ht2 Hm2].
  { by rewrite Hw2, Hw1. }
  pose proof (run_connected_run id w2) as Hc3. rewrite Ht2 in Hc3. fold n in Hc3.
  assert (tasks w3 = tasks w ++ [Pending] ∧ _tasks w3 = <[id := n]> (_tasks w))
    as [Ht3 Hm3].
  { unfold w3. rewrite Hc3. simpl. by rewrite Ht2, Hm2. }
  pose proof (run_connected_run id w3) as Hc4. rewrite Ht3 in Hc4.
  rewrite length_app, Nat.add_1_r in Hc4. fold n in Hc4.
  assert (tasks w4 = tasks w ++ [Pending; Pending]) as Htasks.
  { unfold w4. rewrite Hc4. simpl. rewrite Ht3. by rewrite <-app_assoc. }
  assert (_tasks w4 = <[id := S n]> (_tasks w)) as Hmap.
  { unfold w4. rewrite Hc4. simpl. rewrite Hm3. apply insert_insert_eq. }
  split_and!.
  - by rewrite run_start_fresh.
  - rewrite run_start_fresh; [done|]. by rewrite Hw1.
  - rewrite Hw2, Hw1. simpl. by rewrite <-app_assoc.
  - by rewrite Hc3.
  - by rewrite Hc4.
  - done.
  - rewrite Hmap. apply lookup_insert_eq.
  - rewrite close_tasks. apply (cancel_all_Pending _ _ id).
    + apply elem_of_map_to_list. rewrite Hmap. apply lookup_insert_eq.
    + rewrite Htasks. rewrite lookup_app_r by (unfold n; lia).
      by replace (S n - length (tasks w))%nat with 1%nat by (unfold n; lia).
  - rewrite close_tasks.
    assert (∀ (l : list (string * nat)) ts,
              (∀ kt, kt ∈ l → kt.2 ≠ n) →
              foldl (λ ts kt, cancel kt.2 ts) ts l !! n = ts !! n) as Hkeep.
    { induction l as [|kt l IH]; intros ts Hl; [done|]. simpl.
      rewrite IH by (intros ? ?; apply Hl; by right).
      rewrite cancel_lookup. rewrite decide_False; [done|].
      intros Heq. by apply (Hl kt); [left|]. }
    rewrite Hkeep.
    + rewrite Htasks. rewrite lookup_app_r by (unfold n; lia).
      by replace (n - length (tasks w))%nat with 0%nat by (unfold n; lia).
    + intros [id' t] Hin. apply elem_of_map_to_list in Hin.
      rewrite Hmap in Hin. simpl.
      destruct (decide (id' = id)) as [->|Hne].
      * rewrite lookup_insert_eq in Hin. injection Hin as <-. lia.
      * rewrite lookup_insert_ne in Hin by done.
        apply Hrec in Hin. unfold n. lia.
Qed.

Lemma same_id_started_twice_witness :
  let url := "wss://stream.binance.com:9443/ws/btcusdt@depth" in
  let id := "depth_btcusdt" in
  let w := (run ["BTCUSDT"; "BTCUSDT"] __init__).1 in
  let w2 := start_all (scheduled w) w in
  let w4 := (run_connected id (run_connected id w2).1).1 in
  connections w2 = [url; url] ∧
  tasks w4 = [Pending; Pending] ∧
  tasks (close w4).1 = [Pending; Cancelled].
Proof.
  intros url id w w2 w4.
  destruct (same_id_started_twice url id w)
    as (_ & _ & Hconn & _ & _ & Htasks & _ & Hsecond & Hfirst).
  - compute_done.
  - intros id' t Ht. by vm_compute in Ht.
  - split_and!; [exact Hconn|exact Htasks|compute_done].
Defined.

(** *** After close *)

Lemma close_fields w :
  _order_books (close w).1 = _order_books w ∧
  _order_books_perp (close w).1 = _order_books_perp w ∧
  _tasks (close w).1 = _tasks w ∧
  _sockets (close w).1 = ∅.
Proof. by rewrite close_run. Qed.

(** X9. What [close] means for the coroutines.  One that sleeps finds its
    id gone when it wakes and returns; one that awaits its recorded,
    pending receive task is resumed with CancelledError.  One whose
    connection is still being set up is not stopped: when the connection
    is there it puts its id back into the open set and awaits a new
    receive task.  The books and the map of pending operations are left
    as they are: [close] deletes no book and no record of a task. *)
Theorem sessions_after_close (api : rest_api) (callback : json → M unit)
    (id : string) (w : world) :
  let w' := (close w).1 in
  run_woken id w' = (w', Ended (Return tt)) ∧
  (∀ t outcome, _tasks w !! id = Some t → tasks w !! t = Some Pending →
     run_received api callback id t outcome w' =
       (w', Ended (Raise CancelledError))) ∧
  (run_connected id w').2 = Receiving (length (tasks w')) ∧
  id ∈ _sockets (run_connected id w').1 ∧
  _order_books w' = _order_books w ∧
  _order_books_perp w' = _order_books_perp w ∧
  _tasks w' = _tasks w.
Proof.
  intros w'. destruct (close_fields w) as (Hb & Hp & Hm & Hs). fold w' in Hb, Hp, Hm, Hs.
  split_and!; try done.
  - unfold run_woken, run_loop. rewrite decide_False; [done|].
    rewrite Hs. set_solver.
  - intros t outcome Hrec Ht. unfold run_received.
    assert (tasks w' !! t = Some Cancelled) as ->; [|done].
    unfold w'. rewrite close_tasks. apply (cancel_all_Pending _ _ id); [|done].
    by apply elem_of_map_to_list.
  - by rewrite run_connected_run.
  - rewrite run_connected_run. simpl. set_solver.
Qed.

Lemma sessions_after_close_witness :
  let api : rest_api := λ _ _, Response 500 (Text "" None) in
  let id := "depth_btcusdt" in
  let w := (run_connected id (open_stream_order_book "BTCUSDT" __init__).1).1 in
  run_received api call_order_book id 0 (Return (Text "" None)) (close w).1 =
    ((close w).1, Ended (Raise CancelledError)).
Proof.
  intros api id w.
  destruct (sessions_after_close api call_order_book id w) as (_ & H & _).
  apply H; reflexivity.
Defined.

Lemma cancel_all_none_pending (l : list (string * nat)) ts :
  (∀ kt, kt ∈ l → ts !! kt.2 ≠ Some Pending) →
  foldl (λ ts kt, cancel kt.2 ts) ts l = ts.
Proof.
  induction l as [|kt l IH]; intros Hl; [done|]. simpl.
  assert (cancel kt.2 ts = ts) as ->.
  { unfold cancel. specialize (Hl kt (list_elem_of_here _ _)).
    by destruct (ts !! kt.2) as [[]|]. }
  apply IH. intros kt' Hin. apply Hl. by right.
Qed.

(** X10. Calling [close] a second time changes nothing but the lines
    printed: the tasks it finds recorded are cancelled or done already and
    stay as they are, and the open set is empty as before. *)
Theorem close_twice (w : world) :
  let w1 := (close w).1 in
  let w2 := (close w1).1 in
  tasks w2 = tasks w1 ∧ _sockets w2 = _sockets w1 ∧ _tasks w2 = _tasks w1 ∧
  _order_books w2 = _order_books w1 ∧
  _order_books_perp w2 = _order_books_perp w1 ∧
  requests w2 = requests w1 ∧ connections w2 = connections w1 ∧
  redis w2 = redis w1.
Proof.
  intros w1 w2.
  destruct (close_fields w) as (_ & _ & Hm & Hs). fold w1 in Hm, Hs.
  destruct (close_fields w1) as (Hb2 & Hp2 & Hm2 & Hs2). fold w2 in Hb2, Hp2, Hm2, Hs2.
  split_and!; try done; try congruence.
  - unfold w2. rewrite close_tasks. apply cancel_all_none_pending.
    intros [id t] Hin Hpend. simpl in Hpend.
    rewrite Hm in Hin.
    unfold w1 in Hpend. rewrite close_tasks in Hpend.
    pose proof (cancel_all_was_Pending _ _ _ Hpend) as Hbefore.
    by rewrite (cancel_all_Pending _ _ id t Hin Hbefore) in Hpend.
  - unfold w2. by rewrite close_run.
  - unfold w2. by rewrite close_run.
  - unfold w2. by rewrite close_run.
Qed.

(** *** The callback *)

Lemma spread_of_Return b sp :
  spread_of b = Return sp → lob_asks b ≠ ∅ ∧ lob_bids b ≠ ∅.
Proof.
  unfold spread_of. intros Hsp. split; intros Hempty; rewrite Hempty in Hsp.
  - by rewrite first_key_sorted_empty in Hsp.
  - rewrite first_key_sorted_empty in Hsp. by destruct (first_key _).
Qed.


(** X11. [call_order_book] publishes all or nothing.  Either it raises
    and leaves the world as it found it, or it returns after exactly one
    [hset], under the symbol of the frame and the key symbol_spread, of the
    spread and the book of that symbol, and then the book has levels on
    both sides; it changes nothing else. *)
Theorem call_order_book_all_or_nothing (data : json) (w : world) :
  (∃ e, call_order_book data w = (w, Raise e)) ∨
  (∃ ts symbol b sp,
     getitem data "s" = Return (JStr symbol) ∧
     books (has_underscore symbol) w !! symbol = Some b ∧
     lob_asks b ≠ ∅ ∧ lob_bids b ≠ ∅ ∧
     spread_of b = Return sp ∧
     call_order_book data w =
       (log_redis symbol (symbol ++ "_spread")%string (DashParams ts sp b) w,
        Return tt)).
Proof.
  unfold call_order_book, bind, lift.
  destruct (getitem data "E") as [e|]; [|by left; eexists].
  destruct (match e with
            | JInt z => Return z
            | JBool b => Return (if b then 1 else 0)%Z
            | _ => Raise TypeError
            end) as [ts|]; [|by left; eexists].
  destruct (getitem data "s") as [s|]; [|by left; eexists].
  destruct s as [| | |symbol| |]; try (by left; eexists).
  assert ((if has_underscore symbol
           then get_order_book_perp symbol else get_order_book symbol) w =
          getbook (has_underscore symbol) symbol w) as ->.
  { by destruct (has_underscore symbol). }
  unfold getbook.
  destruct (books (has_underscore symbol) w !! symbol) as [b|] eqn:Hb;
    [|by left; eexists].
  destruct (spread_of b) as [sp|] eqn:Hsp; [|by left; eexists].
  right. exists ts, symbol, b, sp.
  destruct (spread_of_Return b sp Hsp). by split_and!.
Qed.



(** *** One receive task per session *)

(** X13. As long as no two [run] coroutines with the same id are alive at
    once, two receive tasks that are pending belong to two sessions: they
    are awaited by the coroutines of two different ids and recorded under
    these ids.  A session never has two receive tasks outstanding. *)
Theorem one_receive_per_session (api : rest_api) (callback : json → M unit)
    (w : world) (cs : gmap string coroutine) (t1 t2 : nat) :
  leaves_stream callback →
  tracked api callback w cs →
  tasks w !! t1 = Some Pending → tasks w !! t2 = Some Pending → t1 ≠ t2 →
  ∃ id1 id2,
    id1 ≠ id2 ∧
    cs !! id1 = Some (Receiving t1) ∧ _tasks w !! id1 = Some t1 ∧
    cs !! id2 = Some (Receiving t2) ∧ _tasks w !! id2 = Some t2.
Proof.
  intros Hcb Htracked H1 H2 Hne.
  pose proof (tracked_pending_recorded api callback w cs Hcb Htracked) as Hrec.
  destruct (Hrec t1 H1) as (id1 & Hc1 & Hm1).
  destruct (Hrec t2 H2) as (id2 & Hc2 & Hm2).
  exists id1, id2. split_and!; try done. congruence.
Qed.

Lemma one_receive_per_session_witness :
  let api : rest_api := λ _ _, Response 500 (Text "" None) in
  let w0 := (run ["BTCUSDT"; "ETHUSDT"] __init__).1 in
  let w1 := (run_start "u1" "depth_btcusdt" w0).1 in
  let w2 := (run_start "u2" "depth_ethusdt" w1).1 in
  let w3 := (run_connected "depth_btcusdt" w2).1 in
  let w4 := (run_connected "depth_ethusdt" w3).1 in
  ∃ id1 id2,
    id1 ≠ id2 ∧ _tasks w4 !! id1 = Some 0%nat ∧ _tasks w4 !! id2 = Some 1%nat.
Proof.
  intros api w0 w1 w2 w3 w4.
  destruct (one_receive_per_session api call_order_book w4
              (<["depth_ethusdt" := (run_connected "depth_ethusdt" w3).2]>
                 (<["depth_btcusdt" := (run_connected "depth_btcusdt" w2).2]>
                    (<["depth_ethusdt" := (run_start "u2" "depth_ethusdt" w1).2]>
                       (<["depth_btcusdt" := (run_start "u1" "depth_btcusdt" w0).2]>
                          ∅)))) 0 1)
    as (id1 & id2 & Hne & _ & Hm1 & _ & Hm2).
  - exact call_order_book_leaves_stream.
  - apply tracked_connected; [|reflexivity].
    apply tracked_connected; [|reflexivity].
    apply tracked_start; [|by vm_compute].
    apply tracked_start; [|by vm_compute].
    apply tracked_open. apply tracked_open. apply tracked_init.
  - reflexivity.
  - reflexivity.
  - done.
  - by exists id1, id2.
Defined.

(** *** Which frames are unwrapped *)

Lemma spot_id_is_perp s :
  find_is_0 ("depth_" ++ s)%string "depth_perp" = String.prefix "perp" s.
Proof. reflexivity. Qed.

(** X14. [run] tells the sessions for perpetuals by their id beginning
    with depth_perp.  The id of a spot session is depth_ followed by the
    symbol in lower case, so a spot symbol that begins with PERP gets an
    id that [run] takes for one of a perpetual: its frames are looked up
    under the member [data], which spot frames do not have, and the first
    frame ends the session with the error of that lookup, after its task
    record was deleted and before the book is touched.  For every other
    spot symbol the frames are not unwrapped, and for the ids of
    [open_stream_order_book_perp] they always are. *)
Theorem spot_symbol_beginning_with_perp (api : rest_api)
    (callback : json → M unit) (symbol : string) (msg : text) (data : json)
    (e : exn) (w : world) :
  let id := ("depth_" ++ lower symbol)%string in
  (String.prefix "perp" (lower symbol) = true →
   is_Some (_tasks w !! id) →
   parsed msg = Some data → getitem data "data" = Raise e →
   run_received_body api callback id msg w =
     (set_tasks_map (delete id) w, Raise e)) ∧
  (String.prefix "perp" (lower symbol) = false →
   find_is_0 id "depth" = true ∧ find_is_0 id "depth_perp" = false) ∧
  (find_is_0 ("depth_perp_" ++ lower symbol)%string "depth" = true ∧
   find_is_0 ("depth_perp_" ++ lower symbol)%string "depth_perp" = true).
Proof.
  intros id. split_and!.
  - intros Hperp [t Hrec] Hmsg Hdata.
    unfold run_received_body, bind at 1, lift, json_loads. rewrite Hmsg.
    unfold bind at 1, del_task. rewrite Hrec.
    assert (find_is_0 id "depth" = true) as -> by reflexivity.
    assert (find_is_0 id "depth_perp" = true) as ->.
    { unfold id. by rewrite spot_id_is_perp. }
    unfold bind, lift. by rewrite Hdata.
  - intros Hperp. split; [reflexivity|].
    unfold id. by rewrite spot_id_is_perp.
  - reflexivity.
  - reflexivity.
Qed.

Lemma spot_symbol_beginning_with_perp_witness :
  let api : rest_api := λ _ _, Response 500 (Text "" None) in
  let w := (run_connected "depth_perpusdt"
              (open_stream_order_book "PERPUSDT" __init__).1).1 in
  let data := JObj [("E", JInt 1600000000000); ("s", JStr "PERPUSDT");
                    ("a", JArr []); ("b", JArr [])] in
  run_received_body api call_order_book "depth_perpusdt"
    (Text "" (Some data)) w =
    (set_tasks_map (delete "depth_perpusdt") w, Raise KeyError).
Proof.
  intros api w data.
  destruct (spot_symbol_beginning_with_perp api call_order_book "PERPUSDT"
              (Text "" (Some data)) data KeyError w) as [H _].
  apply H; [reflexivity|by eexists|reflexivity|reflexivity].
Defined.

(** *** The dashboard *)

Lemma quotes_from_take depth i zipped :
  quotes_from depth i zipped =
    quote_of <$> take (Z.to_nat (Z.max 1 (depth - i))) zipped.
Proof.
  revert i. induction zipped as [|x rest IH]; intros i; simpl.
  - by rewrite take_nil.
  - destruct (depth - 1 <=? i)%Z eqn:Hi.
    + apply Z.leb_le in Hi.
      replace (Z.to_nat (Z.max 1 (depth - i))) with 1%nat by lia.
      simpl. by destruct rest.
    + apply Z.leb_gt in Hi. rewrite IH.
      replace (Z.to_nat (Z.max 1 (depth - i)))
        with (S (Z.to_nat (Z.max 1 (depth - (i + 1))))) by lia.
      done.
Qed.

Lemma length_sorted reverse (m : gmap Decimal Decimal) :
  length (sorted reverse m) = size m.
Proof.
  unfold sorted.
  destruct reverse; rewrite merge_sort_Permutation; by rewrite length_map_to_list.
Qed.

(** X15. The table of quotes shows the first ten levels of the two sides,
    level by level in the order of the two dictionaries, every price and
    quantity as a float rounded to four places; it has as many rows as
    the shorter side has levels, if that is fewer than ten, so that the
    levels of the longer side beyond them are not shown and a book with
    an empty side gives an empty table.  For a book as the callback
    publishes it, the sides rebuilt from their sorted items, with [b] bids
    and [a] asks, the table has [min 10 (min b a)] rows. *)
Theorem lob_d_rows (bids_items asks_items : list (Decimal * Decimal))
    (b : lob) :
  lob_d bids_items asks_items =
    quote_of <$> take 10 (zip bids_items asks_items) ∧
  length (lob_d bids_items asks_items) =
    (10 `min` (length bids_items `min` length asks_items))%nat ∧
  length (lob_d (sorted true (lob_bids b)) (sorted false (lob_asks b))) =
    (10 `min` (size (lob_bids b) `min` size (lob_asks b)))%nat.
Proof.
  assert (∀ bs as_ : list (Decimal * Decimal),
            lob_d bs as_ = quote_of <$> take 10 (zip bs as_)) as Hrows.
  { intros bs as_. unfold lob_d, lob_depth. by rewrite quotes_from_take. }
  assert (∀ bs as_ : list (Decimal * Decimal),
            length (lob_d bs as_) = (10 `min` (length bs `min` length as_))%nat)
    as Hlen.
  { intros bs as_. rewrite Hrows, length_fmap, length_take, length_zip_with.
    done. }
  split_and!; [apply Hrows|apply Hlen|].
  by rewrite Hlen, !length_sorted.
Qed.

Lemma deque_append_all {A} (maxlen : nat) (q xs : list A) :
  (length q ≤ maxlen)%nat →
  foldl (deque_append maxlen) q xs =
    drop (length (q ++ xs) - maxlen) (q ++ xs).
Proof.
  revert q. induction xs as [|x xs IH]; intros q Hq.
  - simpl. rewrite app_nil_r.
    replace (length q - maxlen)%nat with 0%nat by lia. done.
  - cbn [foldl].
    destruct (length q <? maxlen)%nat eqn:Hlt.
    + assert (deque_append maxlen q x = q ++ [x]) as ->.
      { unfold deque_append. by rewrite Hlt. }
      apply Nat.ltb_lt in Hlt. rewrite IH by (rewrite length_app; simpl; lia).
      by rewrite <-app_assoc.
    + assert (deque_append maxlen q x = drop 1 (q ++ [x])) as ->.
      { unfold deque_append. by rewrite Hlt. }
      apply Nat.ltb_ge in Hlt.
      rewrite IH.
      2:{ rewrite length_drop, length_app. simpl. lia. }
      assert (drop 1 (q ++ [x]) ++ xs = drop 1 (q ++ x :: xs)) as ->.
      { destruct q; [done|]. simpl. rewrite !drop_0. by rewrite <-app_assoc. }
      rewrite drop_drop. f_equal.
      rewrite length_drop, !length_app. simpl. lia.
Qed.

(** X16. A history of the dashboard, a deque bounded by [graph_len] that
    starts empty and to which one value is appended at every refresh,
    holds the values of the latest 1800 refreshes in their order, or of
    all of them as long as they are fewer: older values are dropped from
    the front one by one. *)
Theorem history_keeps_latest {A} (xs : list A) :
  foldl (deque_append graph_len) [] xs = drop (length xs - graph_len) xs ∧
  (length (foldl (deque_append graph_len) [] xs) ≤ graph_len)%nat.
Proof.
  assert (foldl (deque_append graph_len) [] xs
          = drop (length xs - graph_len) xs) as Hall.
  { by rewrite deque_append_all by (simpl; lia). }
  split; [done|]. rewrite Hall, length_drop. lia.
Qed.

(** *** A book that stays empty *)

Lemma merged_empty l :
  Forall (λ pq, (pq.2 <= 0)%Qc) l → merged l ∅ = ∅.
Proof.
  induction l as [|pq l IH] using rev_ind; intros Hl; [done|].
  apply Forall_app in Hl as [Hl Hpq]. apply Forall_inv in Hpq.
  rewrite merged_snoc, IH by done. simpl in Hpq.
  rewrite decide_False by exact (Qcle_not_lt _ _ Hpq).
  apply delete_empty.
Qed.

(** X17. The snapshot is requested whenever an update finds the book
    empty on both sides, not only for the first update.  After an empty
    snapshot and an update that only removes levels the book is empty as
    before, and the next update, whatever it is, requests the snapshot
    again. *)
Theorem empty_book_fetches_again (api : rest_api) (symbol : string)
    (updates next a b : json) (xs ys : list json)
    (la lb : list (Decimal * Decimal)) (w : world) :
  let perp := has_underscore symbol in
  books perp w !! symbol = Some (Lob ∅ ∅) →
  fetched (api (length (requests w)) (request_for symbol))
    = Return (mkOrderBook [] []) →
  getitem updates "a" = Return a → iter a = Return xs →
  levels_of xs = Return la →
  getitem updates "b" = Return b → iter b = Return ys →
  levels_of ys = Return lb →
  Forall (λ pq, (pq.2 <= 0)%Qc) la → Forall (λ pq, (pq.2 <= 0)%Qc) lb →
  let w1 := (update_order_book api symbol updates w).1 in
  (update_order_book api symbol updates w).2 = Return tt ∧
  books perp w1 !! symbol = Some (Lob ∅ ∅) ∧
  requests w1 = requests w ++ [request_for symbol] ∧
  requests (update_order_book api symbol next w1).1 =
    requests w ++ [request_for symbol; request_for symbol].
Proof.
  intros perp Hb Hob Ha Hxs Hla Hbk Hys Hlb Hqa Hqb w1.
  assert (update_order_book api symbol updates w =
            (set_books perp (<[symbol := Lob ∅ ∅]>)
               (log_request (request_for symbol) w), Return tt)) as Hrun.
  { rewrite (update_order_book_run api symbol updates w _ Hb). fold perp.
    cbn [lob_asks lob_bids]. rewrite (proj2 (len_0 ∅) eq_refl). cbn [andb].
    unfold bind at 1.
    rewrite (initialize_run api perp symbol w _ Hb Hob).
    cbn [bids asks snapshot_levels foldl].
    set (w0 := set_books perp (<[symbol := Lob ∅ ∅]>)
                 (log_request (request_for symbol) w)).
    assert (books perp w0 !! symbol = Some (Lob ∅ ∅)) as Hb0.
    { unfold w0. by rewrite books_set_books, lookup_insert_eq. }
    unfold merge_updates, bind, lift. rewrite Ha, Hbk, Hxs.
    rewrite (merge_levels_run perp symbol Asks xs la w0 _ Hb0 Hla).
    rewrite Hys.
    erewrite merge_levels_run;
      [|by rewrite books_set_books, lookup_insert_eq|done].
    cbn [levels set_levels lob_asks lob_bids].
    rewrite !merged_empty by done.
    rewrite set_books_set_books. f_equal.
    unfold w0. rewrite set_books_set_books.
    destruct perp, w; simpl; f_equal; by rewrite !insert_insert_eq. }
  assert (books perp w1 !! symbol = Some (Lob ∅ ∅)) as Hb1.
  { unfold w1. rewrite Hrun. cbn [fst].
    by rewrite books_set_books, lookup_insert_eq. }
  assert (requests w1 = requests w ++ [request_for symbol]) as Hr1.
  { unfold w1. rewrite Hrun. by destruct perp. }
  split_and!; [by rewrite Hrun|done|done|].
  rewrite (update_order_book_run api symbol next w1 _ Hb1). fold perp.
  cbn [lob_asks lob_bids]. rewrite (proj2 (len_0 ∅) eq_refl). cbn [andb].
  unfold bind.
  pose proof (initialize_requests api perp symbol w1) as Hi.
  destruct (initialize _ _ _ w1) as [w2 [[]|e]]; cbn [fst] in Hi |- *.
  - rewrite merge_updates_requests, Hi, Hr1. by rewrite <-app_assoc.
  - rewrite Hi, Hr1. by rewrite <-app_assoc.
Qed.

Lemma empty_book_fetches_again_witness :
  let api : rest_api :=
    λ _ _, Response 200 (Text "" (Some (JObj [("bids", JArr []);
                                              ("asks", JArr [])]))) in
  let updates := JObj [("a", JArr [JArr [JStr "101.0"; JStr "0"]]);
                       ("b", JArr [])] in
  let w := (open_stream_order_book "BTCUSDT" __init__).1 in
  let w1 := (update_order_book api "BTCUSDT" updates w).1 in
  requests (update_order_book api "BTCUSDT" updates w1).1 =
    [request_for "BTCUSDT"; request_for "BTCUSDT"].
Proof.
  intros api updates w w1.
  destruct (empty_book_fetches_again api "BTCUSDT" updates updates
              (JArr [JArr [JStr "101.0"; JStr "0"]]) (JArr [])
              [JArr [JStr "101.0"; JStr "0"]] []
              [(scale10 101 0, scale10 0 0)] [] w)
    as (_ & _ & _ & H);
    [reflexivity|reflexivity|reflexivity|reflexivity|compute_done
    |reflexivity|reflexivity|reflexivity
    |repeat constructor; by vm_compute|constructor|].
  exact H.
Defined.
